(** * Verification of the IREE version-pin updater and the Evoformer test gate

    Shallow embedding of
      - [build_tools/update_iree_version_pins.py]: the regular expressions it
        compiles, [re.match] / [re.findall] / [re.sub] as it calls them, the
        two files it reads and writes;
      - the tolerance selection and the closeness assertion of
        [tests/kernel/wave/wave_evoformer_test.py].

    A Python [str] is a sequence of Unicode code points: [text] is a list of
    code points ([N]).  Printing to stdout is not part of the model. *)

From Stdlib Require Import Ascii String PrimFloat DecimalString DecimalN.
From Stdlib Require Uint63.
From Stdlib Require Import Bool Arith NArith ZArith Lia List.
Import ListNotations.

Set Implicit Arguments.
#[local] Set Warnings "-inexact-float".
Local Open Scope list_scope.

(* ================================================================= *)
(** ** Text *)

Definition char := N.
Definition text := list char.

(** A literal of the source, as code points. *)
Definition str (s : string) : text := map N_of_ascii (list_ascii_of_string s).

Definition LF : char := 10%N.         (* the newline character *)
Definition BACKSLASH : char := 92%N.
Definition LPAREN : char := 40%N.
Definition RPAREN : char := 41%N.
Definition STAR : char := 42%N.
Definition DOT : char := 46%N.
Definition SPACE : char := 32%N.

Definition char_in (c : char) (cs : text) : bool := existsb (N.eqb c) cs.

(** [s.startswith(p)] *)
Fixpoint prefixb (p s : text) : bool :=
  match p, s with
  | [], _ => true
  | x :: p', y :: s' => N.eqb x y && prefixb p' s'
  | _ :: _, [] => false
  end.

(** [s.find(p)]: index of the first occurrence of [p] in [s]. *)
Fixpoint find (p s : text) : option nat :=
  if prefixb p s then Some 0
  else match s with
       | [] => None
       | _ :: s' => option_map S (find p s')
       end.

(** [p in s] *)
Definition contains (p s : text) : bool :=
  match find p s with Some _ => true | None => false end.

(** [s[i:j]] *)
Definition slice (s : text) (i j : nat) : text := firstn (j - i) (skipn i s).

(** [s.split("\n")] and ["\n".join(ls)] *)
Fixpoint lines (s : text) : list text :=
  match s with
  | [] => [[]]
  | c :: s' =>
      if N.eqb c LF then [] :: lines s'
      else match lines s' with
           | l :: ls => (c :: l) :: ls
           | [] => [[c]]
           end
  end.

Fixpoint join_lines (ls : list text) : text :=
  match ls with
  | [] => []
  | [l] => l
  | l :: ls' => l ++ LF :: join_lines ls'
  end.

Definition newline_free (s : text) : bool := negb (char_in LF s).
Definition backslash_free (s : text) : bool := negb (char_in BACKSLASH s).

(* ================================================================= *)
(** ** Outcomes of Python code

    A call returns a value or raises.  [Unmodelled] marks the paths of the
    [re] module that this development does not embed (pattern syntax outside
    the subset below, group references in a replacement template). *)

Inductive exception :=
| RuntimeError (msg : text)
| IndexError
| FileNotFoundError
| re_error.

Inductive outcome (A : Type) :=
| Ok (a : A)
| Raised (e : exception)
| Unmodelled.
Arguments Raised {A} e.
Arguments Unmodelled {A}.

Definition bind {A B} (x : outcome A) (k : A -> outcome B) : outcome B :=
  match x with
  | Ok a => k a
  | Raised e => Raised e
  | Unmodelled => Unmodelled
  end.

Notation "x <- e1 ;; e2" := (bind e1 (fun x => e2))
  (at level 61, e1 at next level, right associativity).

(* ================================================================= *)
(** ** The [re] module, restricted to what the script compiles

    Patterns of the script: a run of literal characters, [\s], escaped
    parentheses, [.*] and one capturing group.  Default flags: [.] matches
    every character but the newline, matching is case sensitive. *)

Inductive atom :=
| Lit (c : char)      (* a literal character *)
| AnyChar             (* [.] *)
| Space.              (* [\s] *)

Inductive node :=
| One (a : atom)
| Star (a : atom)     (* greedy [a*] *)
| Open                (* [(] : a mark at the start of a group *)
| Close.              (* [)] : a mark at its end *)

Definition regex := list node.

(** Characters that are not literal in a pattern. *)
Definition special : text := Eval cbv in str ".^$*+?{}[]\|()".

(** [Py_UNICODE_ISSPACE], which [\s] tests on a [str] pattern. *)
Definition is_space (c : char) : bool :=
  ((9 <=? c) && (c <=? 13) || (28 <=? c) && (c <=? 32)
   || (c =? 133) || (c =? 160) || (c =? 5760)
   || (8192 <=? c) && (c <=? 8202)
   || (c =? 8232) || (c =? 8233) || (c =? 8239) || (c =? 8287)
   || (c =? 12288))%N.

Definition atom_match (a : atom) (c : char) : bool :=
  match a with
  | Lit d => N.eqb d c
  | AnyChar => negb (N.eqb c LF)
  | Space => is_space c
  end.

(** *** Compiling a pattern *)

Inductive token :=
| TAtom (a : atom)
| TStar
| TOpen
| TClose.

(** A backslash escapes a special character or introduces [\s]; every other
    escape, and every special character other than [.], [*], [(] and [)],
    is outside the subset: [None]. *)
Fixpoint tokenize (p : text) : option (list token) :=
  match p with
  | [] => Some []
  | c :: p' =>
      if N.eqb c BACKSLASH then
        match p' with
        | [] => None
        | d :: p'' =>
            if N.eqb d 115 (* s *) then option_map (cons (TAtom Space)) (tokenize p'')
            else if char_in d special then option_map (cons (TAtom (Lit d))) (tokenize p'')
            else None
        end
      else if N.eqb c DOT then option_map (cons (TAtom AnyChar)) (tokenize p')
      else if N.eqb c STAR then option_map (cons TStar) (tokenize p')
      else if N.eqb c LPAREN then option_map (cons TOpen) (tokenize p')
      else if N.eqb c RPAREN then option_map (cons TClose) (tokenize p')
      else if char_in c special then None
      else option_map (cons (TAtom (Lit c))) (tokenize p')
  end.

(** [in_group]: an opening parenthesis is pending.  Nested groups and a
    repeated group are outside the subset. *)
Fixpoint build (ts : list token) (in_group : bool) : option regex :=
  match ts with
  | [] => if in_group then None else Some []
  | TAtom a :: ts' =>
      match ts' with
      | TStar :: ts'' => option_map (cons (Star a)) (build ts'' in_group)
      | _ => option_map (cons (One a)) (build ts' in_group)
      end
  | TStar :: _ => None
  | TOpen :: ts' =>
      if in_group then None else option_map (cons Open) (build ts' true)
  | TClose :: ts' =>
      if in_group then
        match ts' with
        | TStar :: _ => None
        | _ => option_map (cons Close) (build ts' false)
        end
      else None
  end.

(** [re.compile(p)] *)
Definition re_compile (p : text) : option regex :=
  match tokenize p with
  | Some ts => build ts false
  | None => None
  end.

(** *** Matching

    [match_here r s pos marks]: match [r] at the head of [s], which is at
    offset [pos]; [marks] are the offsets of the group marks passed so far.
    The result is the offset of the end of the match and the marks.  A star
    tries the longest run first and gives characters back one at a time. *)
Fixpoint match_here (r : regex) (s : text) (pos : nat) (marks : list nat)
  : option (nat * list nat) :=
  match r with
  | [] => Some (pos, marks)
  | One a :: r' =>
      match s with
      | c :: s' => if atom_match a c then match_here r' s' (S pos) marks else None
      | [] => None
      end
  | Open :: r' => match_here r' s pos (marks ++ [pos])
  | Close :: r' => match_here r' s pos (marks ++ [pos])
  | Star a :: r' =>
      (fix star (s : text) (pos : nat) {struct s} : option (nat * list nat) :=
         match s with
         | c :: s' =>
             if atom_match a c then
               match star s' (S pos) with
               | Some m => Some m
               | None => match_here r' s pos marks
               end
             else match_here r' s pos marks
         | [] => match_here r' s pos marks
         end) s pos
  end.

(** The groups of a match: the slices between successive marks. *)
Fixpoint groups_of (s : text) (marks : list nat) : list text :=
  match marks with
  | o :: c :: marks' => slice s o c :: groups_of s marks'
  | _ => []
  end.

(** A match object: where the match ends in the text it started in, and
    [m.groups()]. *)
Record Match := { m_end : nat; m_groups : list text }.

(** [r.match(s)]: a match at offset 0 only. *)
Definition re_match (r : regex) (s : text) : option Match :=
  match match_here r s 0 [] with
  | Some (e, marks) => Some {| m_end := e; m_groups := groups_of s marks |}
  | None => None
  end.

(** Number of capturing groups of a compiled pattern. *)
Definition group_count (r : regex) : nat :=
  length (filter (fun n => match n with Open => true | _ => false end) r).

(** What [findall] lists for one match: the whole match when the pattern
    has no group, the group when it has one. *)
Definition findall_item (s : text) (m : Match) : text :=
  match m_groups m with
  | [] => firstn (m_end m) s
  | g :: _ => g
  end.

(** The scan of [findall] and [sub]: matches are looked for from left to
    right and do not overlap.  [skip] counts the characters of [s] that
    belong to the match found last.  After an empty match the scan moves on
    by one character. *)
Fixpoint findall_from (r : regex) (s : text) (skip : nat) : list text :=
  match skip with
  | S k => match s with [] => [] | _ :: s' => findall_from r s' k end
  | 0 =>
      match re_match r s with
      | Some m =>
          findall_item s m ::
          match s with
          | [] => []
          | _ :: s' => findall_from r s' (pred (m_end m))
          end
      | None => match s with [] => [] | _ :: s' => findall_from r s' 0 end
      end
  end.

Fixpoint sub_from (r : regex) (repl : text) (s : text) (skip : nat) : text :=
  match skip with
  | S k => match s with [] => [] | _ :: s' => sub_from r repl s' k end
  | 0 =>
      match re_match r s with
      | Some m =>
          repl ++
          match s with
          | [] => []
          | c :: s' =>
              match m_end m with
              | 0 => c :: sub_from r repl s' 0
              | S n => sub_from r repl s' n
              end
          end
      | None => match s with [] => [] | c :: s' => c :: sub_from r repl s' 0 end
      end
  end.

(** [re.findall(pattern, s)].  With two or more groups Python lists tuples:
    outside the subset. *)
Definition re_findall (pattern s : text) : outcome (list text) :=
  match re_compile pattern with
  | None => Unmodelled
  | Some r => if 2 <=? group_count r then Unmodelled else Ok (findall_from r s 0)
  end.

(** The escapes a replacement template turns into one character. *)
Definition template_escape (d : char) : option char :=
  (if d =? 97 then Some 7          (* \a *)
   else if d =? 98 then Some 8     (* \b *)
   else if d =? 102 then Some 12   (* \f *)
   else if d =? 110 then Some 10   (* \n *)
   else if d =? 114 then Some 13   (* \r *)
   else if d =? 116 then Some 9    (* \t *)
   else if d =? 118 then Some 11   (* \v *)
   else if d =? 92 then Some 92    (* \\ *)
   else None)%N.

Definition is_digit (d : char) : bool := ((48 <=? d) && (d <=? 57))%N.
Definition is_ascii_letter (d : char) : bool :=
  ((65 <=? d) && (d <=? 90) || (97 <=? d) && (d <=? 122))%N.

(** The replacement string of [re.sub] is a template.  Without a backslash
    it stands for itself.  A backslash followed by one of [abfnrtv\] is that
    control character (or a backslash); followed by another ASCII letter, or
    by nothing, it is a [re.error]; followed by any other character but a
    digit, both characters stay.  [\g<..>] and [\digit] refer to groups and
    octal codes: not embedded. *)
Fixpoint expand_template (repl : text) : outcome text :=
  match repl with
  | [] => Ok []
  | c :: repl' =>
      if N.eqb c BACKSLASH then
        match repl' with
        | [] => Raised re_error
        | d :: repl'' =>
            match template_escape d with
            | Some e => rest <- expand_template repl'' ;; Ok (e :: rest)
            | None =>
                if N.eqb d 103 (* g *) || is_digit d then Unmodelled
                else if is_ascii_letter d then Raised re_error
                else rest <- expand_template repl'' ;; Ok (c :: d :: rest)
            end
        end
      else rest <- expand_template repl' ;; Ok (c :: rest)
  end.

(** [re.sub(pattern, repl, s)]: the template is compiled before the scan,
    so its errors are raised whether or not the pattern occurs. *)
Definition re_sub (pattern repl s : text) : outcome text :=
  match re_compile pattern with
  | None => Unmodelled
  | Some r =>
      filler <- expand_template repl ;;
      Ok (sub_from r filler s 0)
  end.

(* ================================================================= *)
(** ** [update_iree_version_pins.py] *)

Section Script.

(** The package index: [subprocess.run] of
    [python -m pip index versions NAME --disable-pip-version-check ARGS...],
    given the package name and the extra arguments; its standard output,
    decoded.  The script does not pass [check=True]: a
    failing command is seen through its output only. *)
Variable pip_index_versions : text -> list text -> text.

Definition get_latest_package_version (package_name : text)
  (extra_pip_args : list text) : outcome text :=
  let output := pip_index_versions package_name extra_pip_args in
  match re_compile (package_name ++ str "\s\((.*)\)") with
  | None => Unmodelled
  | Some version_search_regex =>
      match re_match version_search_regex output with
      | None =>
          Raised (RuntimeError (str "Failed to find a package version using regex"))
      | Some matches =>
          match nth_error (m_groups matches) 0 with
          | Some version => Ok version
          | None => Raised IndexError
          end
      end
  end.

(** The two files of the script.  The content of a file is its text, as
    [read()] returns it and as [write()] is given it; what a later [read()]
    returns for a text that was written is [universal_newlines] below.  The
    only failure of a file operation that is followed is the one of opening
    a file that does not exist for reading: permissions, encodings and the
    like are left to the operating system. *)
Inductive path := REQUIREMENTS_IREE_PINNED_PATH | UPDATE_GIT_COMMIT_MESSAGE_PATH.

Record files := {
  requirements_iree_pinned : option text;   (* requirements-iree-pinned.txt *)
  update_iree_version_text : option text    (* update_iree_version_text.txt *)
}.

Definition lookup (p : path) (fs : files) : option text :=
  match p with
  | REQUIREMENTS_IREE_PINNED_PATH => requirements_iree_pinned fs
  | UPDATE_GIT_COMMIT_MESSAGE_PATH => update_iree_version_text fs
  end.

Definition store (p : path) (t : text) (fs : files) : files :=
  match p with
  | REQUIREMENTS_IREE_PINNED_PATH =>
      {| requirements_iree_pinned := Some t;
         update_iree_version_text := update_iree_version_text fs |}
  | UPDATE_GIT_COMMIT_MESSAGE_PATH =>
      {| requirements_iree_pinned := requirements_iree_pinned fs;
         update_iree_version_text := Some t |}
  end.

(** Code that may raise and may write files. *)
Definition M (A : Type) : Type := files -> outcome A * files.

Definition pure {A} (o : outcome A) : M A := fun fs => (o, fs).

Definition mbind {A B} (m : M A) (k : A -> M B) : M B :=
  fun fs =>
    match m fs with
    | (Ok a, fs') => k a fs'
    | (Raised e, fs') => (Raised e, fs')
    | (Unmodelled, fs') => (Unmodelled, fs')
    end.

Notation "x <~ e1 ;; e2" := (mbind e1 (fun x => e2))
  (at level 61, e1 at next level, right associativity).

(** [open(p, "r").read()] *)
Definition read_text (p : path) : M text :=
  fun fs =>
    match lookup p fs with
    | Some t => (Ok t, fs)
    | None => (Raised FileNotFoundError, fs)
    end.

(** [open(p, "w").write(t)] *)
Definition write_text (p : path) (t : text) : M unit :=
  fun fs => (Ok tt, store p t fs).

(** [l[0]] *)
Definition first_item {A} (l : list A) : outcome A :=
  match l with
  | x :: _ => Ok x
  | [] => Raised IndexError
  end.

(** The two substitutions of [main]. *)
Definition pin_versions (iree_base_compiler_version iree_base_runtime_version : text)
  (t : text) : outcome text :=
  t1 <- re_sub (str "iree-base-compiler==.*")
               (str "iree-base-compiler==" ++ iree_base_compiler_version) t ;;
  re_sub (str "iree-base-runtime==.*")
         (str "iree-base-runtime==" ++ iree_base_runtime_version) t1.

(** The commit message. *)
Definition body_text (old_version iree_base_compiler_version : text) : text :=
  str "Automated update of IREE deps to " ++ iree_base_compiler_version
  ++ str "." ++ [LF; LF]
  ++ str "Diff: https://github.com/iree-org/iree/compare/iree-" ++ old_version
  ++ str "...iree-" ++ iree_base_compiler_version
  ++ [LF] ++ str "        ".

Definition iree_nightly_pip_args : list text :=
  [str "--pre"; str "--find-links"; str "https://iree.dev/pip-release-links.html"].

Definition main : M unit :=
  iree_base_compiler_version <~
    pure (get_latest_package_version (str "iree-base-compiler")
            iree_nightly_pip_args) ;;
  iree_base_runtime_version <~
    pure (get_latest_package_version (str "iree-base-runtime")
            iree_nightly_pip_args) ;;
  t <~ read_text REQUIREMENTS_IREE_PINNED_PATH ;;
  old_version <~
    pure (found <- re_findall (str "iree-base-compiler==(.*)") t ;; first_item found) ;;
  t' <~ pure (pin_versions iree_base_compiler_version iree_base_runtime_version t) ;;
  _ <~ write_text UPDATE_GIT_COMMIT_MESSAGE_PATH
         (body_text old_version iree_base_compiler_version) ;;
  write_text REQUIREMENTS_IREE_PINNED_PATH t'.

End Script.

(** *** Text mode

    [open(p, "r")] reads with universal newlines: a carriage return, alone
    or followed by a newline, is read as one newline. *)
Definition CR : char := 13%N.

Fixpoint universal_newlines (s : text) : text :=
  match s with
  | [] => []
  | c :: s' =>
      if N.eqb c CR
      then LF :: match s' with
                 | d :: s'' =>
                     if N.eqb d LF then universal_newlines s''
                     else universal_newlines s'
                 | [] => []
                 end
      else c :: universal_newlines s'
  end.

(** The files as a later run of the script reads them. *)
Definition reopened (fs : files) : files :=
  {| requirements_iree_pinned :=
       option_map universal_newlines (requirements_iree_pinned fs);
     update_iree_version_text :=
       option_map universal_newlines (update_iree_version_text fs) |}.

Definition cr_free (s : text) : bool := negb (char_in CR s).

(* ================================================================= *)
(** ** [wave_evoformer_test.py]: the closeness assertion *)

Module Evoformer.

(** Element types of the kernel language; the test is run with [f16] and
    [bf16].  [f32] stands for the other element types of the language. *)
Inductive DataType := f16 | bf16 | f32.

Inductive torch_dtype := float16 | bfloat16 | float32.

Definition DataType_eqb (a b : DataType) : bool :=
  match a, b with
  | f16, f16 | bf16, bf16 | f32, f32 => true
  | _, _ => false
  end.

Definition torch_dtype_eqb (a b : torch_dtype) : bool :=
  match a, b with
  | float16, float16 | bfloat16, bfloat16 | float32, float32 => true
  | _, _ => false
  end.

(** Order of shapes: (B, BN, K2, H, K1, M, N) *)
Definition shape := (N * N * N * N * N * N * N)%type.

(** A test parameter and whether it carries the [perf_only] mark. *)
Definition default_test_shapes : list (shape * bool) :=
  let shapes := [(1, 256, 256, 4, 32, 256, 32); (1, 512, 256, 8, 8, 256, 8)]%N in
  map (fun x => (x, false)) shapes ++ map (fun x => (x, true)) shapes.

Definition dtype_params : list DataType := [f16; bf16].

(** [torch_dtype] of the tensors the test allocates, [output] among them;
    the kernel writes into [output] and leaves its element type. *)
Definition torch_dtype_of (dtype : DataType) : torch_dtype :=
  if DataType_eqb dtype bf16 then bfloat16 else float16.

(** [eps = 1e-2 if output.dtype == torch.float16 else 5e-2] *)
Definition eps (output_dtype : torch_dtype) : float :=
  if torch_dtype_eqb output_dtype float16 then 1e-2%float else 5e-2%float.

Inductive test_result := Skipped | Passed | Failed.

Section Test.

(** [WAVE_RUN_E2E_TESTS] of the environment, as an integer; the test is
    skipped when it is 0. *)
Variable run_e2e : Z.

(** [torch.max(torch.abs(torch_ref - output)).item()] after the kernel ran:
    the tensors, the kernel and the reference are computed by libraries
    outside this repository, with the random seed fixed to 0. *)
Variable max_abs_diff : shape -> DataType -> float.

(** The test, up to its final assertion. *)
Definition testEvoformerAttentionForward (sh : shape) (dtype : DataType)
  : test_result :=
  if Z.eqb run_e2e 0 then Skipped
  else
    let output_dtype := torch_dtype_of dtype in
    let eps := eps output_dtype in
    if PrimFloat.ltb (max_abs_diff sh dtype) eps then Passed else Failed.

End Test.

End Evoformer.

(* ================================================================= *)
(** ** [wave_evoformer_test.py]: shapes and element types

    The values of a tensor are floating-point numbers that torch computes:
    here a tensor is its shape and its element type, and every torch call
    of the test and of [attention_reference] is followed on those.  A call
    that torch rejects for the shapes it gets raises. *)

Module EvoformerTensors.
Import Evoformer.

Record tensor := { size : list N; dtype : torch_dtype }.

Inductive torch_exception :=
| TorchRuntimeError   (* sizes or element types that do not fit *)
| TorchIndexError.    (* dimension out of range *)

Inductive torch_result (A : Type) :=
| Returns (a : A)
| Raises (e : torch_exception)
| NotEmbedded.    (* a case of the torch call that is not followed here *)
Arguments Raises {A} e.
Arguments NotEmbedded {A}.

Definition then_ {A B} (x : torch_result A) (k : A -> torch_result B)
  : torch_result B :=
  match x with
  | Returns a => k a
  | Raises e => Raises e
  | NotEmbedded => NotEmbedded
  end.

Notation "x <-- e1 ;; e2" := (then_ e1 (fun x => e2))
  (at level 61, e1 at next level, right associativity).

(** [t.numel()] *)
Definition numel (s : list N) : N := fold_right N.mul 1%N s.

(** A dimension given from the end ([-1] is the last) or from the start. *)
Definition dim_index (rank : nat) (d : Z) : option nat :=
  if (0 <=? d)%Z && (d <? Z.of_nat rank)%Z then Some (Z.to_nat d)
  else if (d <? 0)%Z && (- Z.of_nat rank <=? d)%Z
       then Some (Z.to_nat (Z.of_nat rank + d))
       else None.

Fixpoint set_nth (l : list N) (i : nat) (x : N) : list N :=
  match l, i with
  | [], _ => []
  | _ :: l', 0 => x :: l'
  | y :: l', S i' => y :: set_nth l' i' x
  end.

(** [t.transpose(d0, d1)] *)
Definition transpose (t : tensor) (d0 d1 : Z) : torch_result tensor :=
  let rank := length (size t) in
  match dim_index rank d0, dim_index rank d1 with
  | Some i, Some j =>
      Returns {| size := set_nth (set_nth (size t) i (nth j (size t) 0%N))
                           j (nth i (size t) 0%N);
                 dtype := dtype t |}
  | _, _ => Raises TorchIndexError
  end.

(** Broadcasting of two sizes, aligned at their last dimensions: two
    dimensions fit when they are equal or one of them is 1. *)
Definition broadcast_dim (a b : N) : option N :=
  if N.eqb a b then Some a
  else if N.eqb a 1 then Some b
  else if N.eqb b 1 then Some a
  else None.

Fixpoint broadcast_rev (a b : list N) : option (list N) :=
  match a, b with
  | [], _ => Some b
  | _, [] => Some a
  | x :: a', y :: b' =>
      match broadcast_dim x y, broadcast_rev a' b' with
      | Some d, Some r => Some (d :: r)
      | _, _ => None
      end
  end.

Definition broadcast (a b : list N) : option (list N) :=
  option_map (@rev N) (broadcast_rev (rev a) (rev b)).

(** [torch.matmul(a, b)] of tensors with two dimensions or more: the last
    two are multiplied as matrices, the others are broadcast.  Vectors are
    not followed. *)
Definition matmul (a b : tensor) : torch_result tensor :=
  match rev (size a), rev (size b) with
  | k :: m :: batch_a, n :: k' :: batch_b =>
      if negb (torch_dtype_eqb (dtype a) (dtype b)) then Raises TorchRuntimeError
      else if negb (N.eqb k k') then Raises TorchRuntimeError
      else match broadcast_rev batch_a batch_b with
           | Some batch =>
               Returns {| size := rev (n :: m :: batch); dtype := dtype a |}
           | None => Raises TorchRuntimeError
           end
  | _, _ => NotEmbedded
  end.

(** [a * x], [x * a] and [a - x] for a Python number [x]: the tensor keeps
    its size and its element type. *)
Definition with_scalar (a : tensor) : tensor := a.

(** [a += b]: [b] is broadcast to the size of [a], which does not change. *)
Definition iadd (a b : tensor) : torch_result tensor :=
  match broadcast (size a) (size b) with
  | Some s =>
      if list_eq_dec N.eq_dec s (size a) then Returns a else Raises TorchRuntimeError
  | None => Raises TorchRuntimeError
  end.

(** [a - b] *)
Definition sub (a b : tensor) : torch_result tensor :=
  if negb (torch_dtype_eqb (dtype a) (dtype b)) then NotEmbedded
  else match broadcast (size a) (size b) with
       | Some s => Returns {| size := s; dtype := dtype a |}
       | None => Raises TorchRuntimeError
       end.

(** [F.softmax(a, dim=d)] *)
Definition softmax (a : tensor) (d : Z) : torch_result tensor :=
  match dim_index (length (size a)) d with
  | Some _ => Returns a
  | None => Raises TorchIndexError
  end.

(** [t.view(s)] of a contiguous tensor *)
Definition view (t : tensor) (s : list N) : torch_result tensor :=
  if N.eqb (numel s) (numel (size t))
  then Returns {| size := s; dtype := dtype t |}
  else Raises TorchRuntimeError.

(** [device_randn], [device_randint] and [device_zeros] for the size [s]
    and the element type [d] *)
Definition device_tensor (s : list N) (d : torch_dtype) : tensor :=
  {| size := s; dtype := d |}.

Fixpoint add_biases (a : tensor) (biases : list tensor) : torch_result tensor :=
  match biases with
  | [] => Returns a
  | b :: biases' => a' <-- iadd a b ;; add_biases a' biases'
  end.

Definition attention_reference (q_input k_input v_input : tensor)
  (biases : list tensor) (sm_scale : float) : torch_result tensor :=
  q <-- transpose q_input (-2) (-3) ;;
  k <-- transpose k_input (-2) (-3) ;;
  v <-- transpose v_input (-2) (-3) ;;
  k_t <-- transpose k (-1) (-2) ;;
  a <-- matmul q k_t ;;
  let a := with_scalar a in
  a <-- add_biases a biases ;;
  a <-- softmax a (-1) ;;
  a_v <-- matmul a v ;;
  o <-- transpose a_v (-2) (-3) ;;
  Returns o.

(** [t.permute(dims)]: the dimensions are taken in turn, each one checked
    for its range and then against those already taken. *)
Fixpoint permute_dims (rank : nat) (seen : list nat) (dims : list Z)
  : torch_result (list nat) :=
  match dims with
  | [] => Returns []
  | d :: dims' =>
      match dim_index rank d with
      | None => Raises TorchIndexError
      | Some i =>
          if existsb (Nat.eqb i) seen then Raises TorchRuntimeError
          else then_ (permute_dims rank (i :: seen) dims')
                     (fun rest => Returns (i :: rest))
      end
  end.

Definition permute (t : tensor) (dims : list Z) : torch_result tensor :=
  let rank := length (size t) in
  if negb (Nat.eqb (length dims) rank) then Raises TorchRuntimeError
  else then_ (permute_dims rank [] dims)
         (fun order =>
            Returns {| size := map (fun i => nth i (size t) 0%N) order;
                       dtype := dtype t |}).

(** What the body of the test raises before its assertion. *)
Inductive test_exception :=
| ZeroDivisionError                   (* [1.0 / 0] *)
| TorchError (e : torch_exception)
| KernelError.                        (* the call of the kernel raised *)

Inductive test_run (A : Type) :=
| Completes (a : A)
| Fails (e : test_exception)
| NotFollowed.
Arguments Fails {A} e.
Arguments NotFollowed {A}.

Definition and_then {A B} (x : test_run A) (k : A -> test_run B) : test_run B :=
  match x with
  | Completes a => k a
  | Fails e => Fails e
  | NotFollowed => NotFollowed
  end.

Notation "x <== e1 ;; e2" := (and_then e1 (fun x => e2))
  (at level 61, e1 at next level, right associativity).

(** A torch call in the body of the test. *)
Definition torch (A : Type) (x : torch_result A) : test_run A :=
  match x with
  | Returns a => Completes a
  | Raises e => Fails (TorchError e)
  | NotEmbedded => NotFollowed
  end.

(** [float(n)] for a Python integer [n] that fits 63 bits: the nearest
    float.  Larger integers are not followed. *)
Definition float_of_N (n : N) : option float :=
  if (n <? 2 ^ 63)%N then Some (PrimFloat.of_uint63 (Uint63.of_Z (Z.of_N n)))
  else None.

(** [math.sqrt(1.0 / n)] for an integer [n] that is not negative *)
Definition sqrt_of_inverse (n : N) : test_run float :=
  match float_of_N n with
  | Some x =>
      if N.eqb n 0 then Fails ZeroDivisionError
      else Completes (PrimFloat.sqrt (1 / x))
  | None => NotFollowed
  end.

Section TestBody.

(** [evoformer_fwd], the kernel that [get_evoformer_kernel] and
    [wave_compile] build: called on six tensors it fills the last one in
    place, which keeps its size and its element type, and returns the
    compiled module; [None] when the call raises. *)
Variable compiled_module : Type.
Variable evoformer_fwd :
  tensor -> tensor -> tensor -> tensor -> tensor -> tensor
  -> option compiled_module.

Definition launch (r : option compiled_module) : test_run compiled_module :=
  match r with
  | Some mb => Completes mb
  | None => Fails KernelError
  end.

(** The body of the test up to its assertion: the reference, and the buffer
    the kernel wrote its result into. *)
Definition test_tensors (sh : shape) (dt : DataType)
  : test_run (tensor * tensor) :=
  let '(batch, n, kv_seq_len, heads, head_dim, q_seq_len, v_dim) := sh in
  let torch_dtype := torch_dtype_of dt in
  let q := device_tensor [batch; n; q_seq_len; heads; head_dim] torch_dtype in
  let k := device_tensor [batch; n; kv_seq_len; heads; head_dim] torch_dtype in
  let v := device_tensor [batch; n; kv_seq_len; heads; v_dim] torch_dtype in
  let mask := device_tensor [batch; n; kv_seq_len] torch_dtype in
  let mask_bias := with_scalar (with_scalar mask) in
  let bias := device_tensor [batch; heads; q_seq_len; kv_seq_len] torch_dtype in
  let output := device_tensor [batch; n; q_seq_len; heads; v_dim] torch_dtype in
  dk_sqrt <== sqrt_of_inverse head_dim ;;
  v_permuted <== torch (permute v [0; 1; 4; 3; 2]%Z) ;;
  mb <== launch (evoformer_fwd (with_scalar (with_scalar q)) k v_permuted
                   mask_bias (with_scalar bias) output) ;;
  mask_bias <== torch (view mask_bias [batch; n; 1; 1; kv_seq_len]%N) ;;
  bias <== torch (view bias [batch; 1; heads; q_seq_len; kv_seq_len]%N) ;;
  torch_ref <== torch (attention_reference q k v [mask_bias; bias] dk_sqrt) ;;
  Completes (torch_ref, output).

End TestBody.

End EvoformerTensors.

(* ================================================================= *)
(** ** [wave_evoformer_test.py]: the file of the generated MLIR *)

Module EvoformerDump.
Import Evoformer.

(** [str(n)] for an integer that is not negative. *)
Definition str_of_N (n : N) : text :=
  str (NilEmpty.string_of_uint (N.to_uint n)).

Definition LETTER_X : char := 120%N.

(** [sep.join(ls)] *)
Fixpoint join (sep : text) (ls : list text) : text :=
  match ls with
  | [] => []
  | [l] => l
  | l :: ls' => l ++ sep ++ join sep ls'
  end.

Definition dims (sh : shape) : list N :=
  let '(b, bn, k2, h, k1, m, n) := sh in [b; bn; k2; h; k1; m; n].

(** The name of the file the module is written to, when [WAVE_DUMP_MLIR]
    asks for it. *)
Definition filename (sh : shape) : text :=
  str "wave_evoformer_" ++ join (str "x") (map str_of_N (dims sh))
  ++ str ".mlir".

End EvoformerDump.

(* ================================================================= *)
(** ** Reference notions

    Plain descriptions of texts, lines and occurrences, in which the
    properties below are stated and against which the [re] calls of the
    script are compared. *)

(** The text up to the first newline, and the text from that newline on. *)
Fixpoint first_line (s : text) : text :=
  match s with
  | [] => []
  | c :: s' => if N.eqb c LF then [] else c :: first_line s'
  end.

Fixpoint drop_line (s : text) : text :=
  match s with
  | [] => []
  | c :: s' => if N.eqb c LF then s else drop_line s'
  end.

(** One line with its first occurrence of [p], and all that follows it on
    the line, replaced by [filler]. *)
Fixpoint sub_line (p filler l : text) : text :=
  if prefixb p l then filler
  else match l with
       | [] => []
       | c :: l' => c :: sub_line p filler l'
       end.

(** Index of the last [c] on the first line of [s]. *)
Fixpoint last_in_line (c : char) (s : text) : option nat :=
  match s with
  | [] => None
  | d :: s' =>
      if N.eqb d LF then None
      else match last_in_line c s' with
           | Some i => Some (S i)
           | None => if N.eqb c d then Some 0 else None
           end
  end.

(** The version a text starts with: the name, one white space character, an
    opening parenthesis, and the text up to the last closing parenthesis of
    that line. *)
Definition version_at (name s : text) : option text :=
  if prefixb name s then
    match skipn (length name) s with
    | ws :: p :: tail =>
        if is_space ws && N.eqb p LPAREN
        then option_map (fun i => firstn i tail) (last_in_line RPAREN tail)
        else None
    | _ => None
    end
  else None.

(** A package name in which every character stands for itself in a
    pattern. *)
Definition plain_name (name : text) : bool :=
  forallb (fun c => negb (char_in c special)) name.

(** The pattern that matches the characters of [l] one after the other. *)
Definition lits (l : text) : regex := map (fun c => One (Lit c)) l.

(** [a] and [b] agree as far as both go. *)
Fixpoint agree (a b : text) : bool :=
  match a, b with
  | x :: a', y :: b' => N.eqb x y && agree a' b'
  | _, _ => true
  end.

(** Some occurrence of [a] can overlap an occurrence of [b] that starts
    inside it or where it starts. *)
Definition overlaps (a b : text) : bool :=
  existsb (fun k => agree (skipn k a) b) (seq 0 (length a)).

(** What follows the package name in the pattern of the query, compiled. *)
Definition version_tail : regex :=
  [One Space; One (Lit LPAREN); Open; Star AnyChar; Close; One (Lit RPAREN)].

(** The error of [get_latest_package_version]. *)
Definition no_version : exception :=
  RuntimeError (str "Failed to find a package version using regex").

Definition COMPILER_PIN : text := Eval cbv in str "iree-base-compiler==".
Definition RUNTIME_PIN : text := Eval cbv in str "iree-base-runtime==".

(** One line after the two substitutions of [main]. *)
Definition pin_line (iree_base_compiler_version iree_base_runtime_version l : text)
  : text :=
  sub_line RUNTIME_PIN (RUNTIME_PIN ++ iree_base_runtime_version)
    (sub_line COMPILER_PIN (COMPILER_PIN ++ iree_base_compiler_version) l).

(** Some line of the text starts with [p]. *)
Definition has_line_starting (p s : text) : bool :=
  existsb (prefixb p) (lines s).

(* ================================================================= *)
(** ** Sample inputs *)

(** What the package index prints for a package. *)
Definition pip_answer : text :=
  Eval cbv in
    str "iree-base-compiler (3.2.0rc20250109)" ++ [LF]
    ++ str "Available versions: 3.2.0rc20250109, 3.1.0".

(** The same answer after a line of warning. *)
Definition pip_answer_after_warning : text :=
  Eval cbv in
    str "WARNING: pip index is experimental" ++ [LF]
    ++ str "iree-base-compiler (3.2.0rc20250109)" ++ [LF].

(** An index that offers the same release of every package. *)
Definition pip_release (package_name : text) (extra_pip_args : list text)
  : text :=
  package_name ++ str " (3.2.0rc20250109)" ++ [LF]
  ++ str "Available versions: 3.2.0rc20250109, 3.1.0".

(** A requirements file whose only pin is commented out. *)
Definition commented_pin : files :=
  {| requirements_iree_pinned := Some (str "# iree-base-compiler==3.1.0");
     update_iree_version_text := None |}.

(** A requirements file with both pins. *)
Definition both_pins : files :=
  {| requirements_iree_pinned :=
       Some (str "iree-base-compiler==3.1.0" ++ [LF]
             ++ str "iree-base-runtime==3.1.0" ++ [LF]);
     update_iree_version_text := None |}.

(** A requirements file without pins. *)
Definition no_pins : files :=
  {| requirements_iree_pinned := Some (str "numpy==1.26.4" ++ [LF]);
     update_iree_version_text := None |}.

(** An index whose version ends in a backslash and an [n]. *)
Definition pip_escaped (package_name : text) (extra_pip_args : list text)
  : text :=
  package_name ++ str " (3.2.0\n)".

Definition one_pin : text := Eval cbv in str "iree-base-compiler==3.1.0".

(** An answer with a second parenthesis on the line of the version, the
    name and the version being separated by a tab. *)
Definition pip_answer_yanked : text :=
  Eval cbv in
    str "iree-base-compiler" ++ [9%N] ++ str "(3.2.0) (yanked), see notes"
    ++ [LF] ++ str "Available versions: (none)".

(** No file at all. *)
Definition no_files : files :=
  {| requirements_iree_pinned := None; update_iree_version_text := None |}.

(** A requirements file whose pin has text before and after it. *)
Definition pin_with_comment : files :=
  {| requirements_iree_pinned :=
       Some (str "numpy" ++ [LF]
             ++ str "  iree-base-compiler==3.1.0  # nightly" ++ [LF]);
     update_iree_version_text := None |}.

(** A requirements file whose pins stand below a comment that mentions an
    earlier pin. *)
Definition pin_below_comment : files :=
  {| requirements_iree_pinned :=
       Some (str "# iree-base-compiler==0.0.1 (broken)" ++ [LF]
             ++ str "iree-base-compiler==3.1.0" ++ [LF]
             ++ str "iree-base-runtime==3.1.0" ++ [LF]);
     update_iree_version_text := None |}.

(** A requirements file whose pins stand below another requirement. *)
Definition pins_below_numpy : files :=
  {| requirements_iree_pinned :=
       Some (str "numpy==1.26.4" ++ [LF]
             ++ str "iree-base-compiler==3.1.0" ++ [LF]
             ++ str "iree-base-runtime==3.1.0" ++ [LF]);
     update_iree_version_text := None |}.

(** An index whose version ends in a carriage return. *)
Definition pip_cr (package_name : text) (extra_pip_args : list text) : text :=
  package_name ++ str " (3.2.0" ++ [CR] ++ str ")".

(** An index whose version holds a backslash and a [q]. *)
Definition pip_bad_escape (package_name : text) (extra_pip_args : list text)
  : text :=
  package_name ++ str " (3.2.0\q1)".

(* ================================================================= *)
(** * Properties *)

(** ** Texts and prefixes *)

Lemma prefixb_split p s : prefixb p s = true -> s = p ++ skipn (length p) s.
Proof.
  revert s; induction p as [|x p IH]; intros [|y s]; simpl; try discriminate; auto.
  intro H. apply andb_prop in H as [E H]. apply N.eqb_eq in E. subst y.
  f_equal. auto.
Qed.

Lemma prefixb_app p t : prefixb p (p ++ t) = true.
Proof.
  induction p as [|x p IH]; simpl; auto. now rewrite N.eqb_refl.
Qed.

Lemma prefixb_nil p : p <> [] -> prefixb p [] = false.
Proof. destruct p; [congruence | reflexivity]. Qed.

Lemma newline_free_cons c s :
  newline_free (c :: s) = negb (N.eqb c LF) && newline_free s.
Proof.
  unfold newline_free, char_in. cbn [existsb].
  now rewrite negb_orb, (N.eqb_sym LF c).
Qed.

Lemma newline_free_app a b :
  newline_free (a ++ b) = newline_free a && newline_free b.
Proof.
  induction a as [|x a IH]; simpl; auto.
  rewrite !newline_free_cons, IH. now rewrite andb_assoc.
Qed.

(** ** Compiling the patterns of the script *)

Lemma not_special c :
  char_in c special = false ->
  N.eqb c BACKSLASH = false /\ N.eqb c DOT = false /\ N.eqb c STAR = false
  /\ N.eqb c LPAREN = false /\ N.eqb c RPAREN = false.
Proof.
  unfold char_in, special; simpl. intro H.
  repeat (apply orb_false_elim in H; destruct H as [? H]).
  unfold BACKSLASH, DOT, STAR, LPAREN, RPAREN. auto.
Qed.

Lemma tokenize_plain name p :
  plain_name name = true ->
  tokenize (name ++ p)
  = option_map (app (map (fun c => TAtom (Lit c)) name)) (tokenize p).
Proof.
  induction name as [|c name IH]; simpl; intro H.
  - now destruct (tokenize p).
  - apply andb_prop in H as [Hc H]. apply negb_true_iff in Hc.
    destruct (not_special _ Hc) as (E1 & E2 & E3 & E4 & E5).
    rewrite E1, E2, E3, E4, E5, Hc, IH by exact H.
    now destruct (tokenize p).
Qed.

Lemma build_atom_atom a b ts g :
  build (TAtom a :: TAtom b :: ts) g
  = option_map (cons (One a)) (build (TAtom b :: ts) g).
Proof. reflexivity. Qed.

Lemma build_lits name ts g :
  match ts with TStar :: _ => False | _ => True end ->
  build (map (fun c => TAtom (Lit c)) name ++ ts) g
  = option_map (app (lits name)) (build ts g).
Proof.
  intro Hts. induction name as [|c name IH].
  - simpl. now destruct (build ts g).
  - destruct name as [|d name].
    + destruct ts as [|[a| | |] ts]; try contradiction;
        cbn [map app lits build]; now destruct (build _ _).
    + change (build (TAtom (Lit c) :: TAtom (Lit d)
                       :: (map (fun c => TAtom (Lit c)) name ++ ts)) g
              = option_map (app (lits (c :: d :: name))) (build ts g)).
      rewrite build_atom_atom.
      change (TAtom (Lit d) :: map (fun c => TAtom (Lit c)) name ++ ts)
        with (map (fun c => TAtom (Lit c)) (d :: name) ++ ts).
      rewrite IH. now destruct (build ts g).
Qed.

Lemma compile_version_search_regex name :
  plain_name name = true ->
  re_compile (name ++ str "\s\((.*)\)") = Some (lits name ++ version_tail).
Proof.
  intro H. unfold re_compile. rewrite tokenize_plain by exact H.
  change (tokenize (str "\s\((.*)\)"))
    with (Some [TAtom Space; TAtom (Lit LPAREN); TOpen; TAtom AnyChar; TStar;
                TClose; TAtom (Lit RPAREN)]).
  cbv beta iota delta [option_map]. rewrite build_lits by exact I. reflexivity.
Qed.

(** ** Matching the patterns of the script *)

Lemma match_here_lits l r s pos marks :
  match_here (lits l ++ r) s pos marks
  = if prefixb l s
    then match_here r (skipn (length l) s) (pos + length l) marks
    else None.
Proof.
  revert s pos; induction l as [|c l IH]; intros s pos.
  - simpl. now rewrite Nat.add_0_r.
  - destruct s as [|d s]; [reflexivity|].
    cbn [lits map app match_here atom_match prefixb length skipn].
    destruct (N.eqb c d); [|reflexivity].
    fold (lits l). rewrite IH. cbn [andb].
    now rewrite Nat.add_succ_r.
Qed.

Lemma match_here_star a r s pos marks :
  match_here (Star a :: r) s pos marks
  = match s with
    | c :: s' =>
        if atom_match a c then
          match match_here (Star a :: r) s' (S pos) marks with
          | Some m => Some m
          | None => match_here r s pos marks
          end
        else match_here r s pos marks
    | [] => match_here r s pos marks
    end.
Proof. destruct s; reflexivity. Qed.

Lemma match_here_one a r c s pos marks :
  match_here (One a :: r) (c :: s) pos marks
  = if atom_match a c then match_here r s (S pos) marks else None.
Proof. reflexivity. Qed.

Lemma match_here_open r s pos marks :
  match_here (Open :: r) s pos marks = match_here r s pos (marks ++ [pos]).
Proof. reflexivity. Qed.

(** [.*] followed by a pattern that matches at the end of the line takes the
    whole line. *)
Lemma match_here_dotstar r s pos marks m :
  match_here r (drop_line s) (pos + length (first_line s)) marks = Some m ->
  match_here (Star AnyChar :: r) s pos marks = Some m.
Proof.
  revert pos; induction s as [|c s IH]; intros pos H; rewrite match_here_star.
  - simpl in H. now rewrite Nat.add_0_r in H.
  - cbn [atom_match first_line drop_line] in *.
    destruct (N.eqb c LF); cbn [negb length] in *.
    + now rewrite Nat.add_0_r in H.
    + rewrite (IH (S pos)); [reflexivity|].
      now rewrite Nat.add_succ_r in H.
Qed.

(** [.*] followed by a closing parenthesis gives characters back down to the
    last closing parenthesis of the line. *)
Lemma match_here_dotstar_rparen s pos marks :
  match_here [Star AnyChar; Close; One (Lit RPAREN)] s pos marks
  = option_map (fun i => (S (pos + i), marks ++ [pos + i]))
               (last_in_line RPAREN s).
Proof.
  revert pos; induction s as [|c s IH]; intro pos; rewrite match_here_star.
  - reflexivity.
  - cbn [atom_match last_in_line].
    destruct (N.eqb_spec c LF) as [->|_]; cbn [negb]; [reflexivity|].
    rewrite IH. destruct (last_in_line RPAREN s) as [i|]; cbn [option_map].
    + now rewrite Nat.add_succ_r.
    + cbn [match_here atom_match].
      destruct (N.eqb RPAREN c); cbn [option_map]; [|reflexivity].
      now rewrite Nat.add_0_r.
Qed.

Lemma skipn_app_length {A} (a b : list A) : skipn (length a) (a ++ b) = b.
Proof. induction a; simpl; auto. Qed.

Lemma slice_after a b i :
  slice (a ++ b) (length a) (length a + i) = firstn i b.
Proof.
  unfold slice. rewrite skipn_app_length. f_equal. lia.
Qed.

(** The query returns the version the output starts with, and raises when
    the output does not start with one. *)
Lemma get_latest_package_version_spec pip name extra :
  plain_name name = true ->
  get_latest_package_version pip name extra
  = match version_at name (pip name extra) with
    | Some v => Ok v
    | None => Raised no_version
    end.
Proof.
  intro Hn. unfold get_latest_package_version.
  rewrite compile_version_search_regex by exact Hn.
  unfold re_match, version_at. rewrite match_here_lits.
  destruct (prefixb name (pip name extra)) eqn:Hp; [|reflexivity].
  apply prefixb_split in Hp. set (rest := skipn (length name) (pip name extra)) in *.
  destruct rest as [|ws [|p tail]]; unfold version_tail.
  - reflexivity.
  - rewrite match_here_one. now destruct (atom_match Space ws).
  - rewrite !match_here_one, match_here_open. cbn [atom_match].
    destruct (is_space ws); [|reflexivity].
    rewrite (N.eqb_sym LPAREN p). destruct (N.eqb p LPAREN); [|reflexivity].
    cbn [andb]. rewrite match_here_dotstar_rparen.
    destruct (last_in_line RPAREN tail) as [i|]; [|reflexivity].
    cbn [option_map app groups_of nth_error m_groups].
    rewrite Hp.
    replace (name ++ ws :: p :: tail) with ((name ++ [ws; p]) ++ tail)
      by now rewrite <- app_assoc.
    replace (S (S (0 + length name))) with (length (name ++ [ws; p]))
      by (rewrite length_app; simpl; lia).
    now rewrite slice_after.
Qed.

(** ** Lines *)

Lemma first_drop_line s : s = first_line s ++ drop_line s.
Proof.
  induction s as [|c s IH]; simpl; auto.
  destruct (N.eqb c LF); simpl; congruence.
Qed.

Lemma first_line_newline_free s : newline_free (first_line s) = true.
Proof.
  induction s as [|c s IH]; simpl; auto.
  destruct (N.eqb c LF) eqn:E; auto.
  now rewrite newline_free_cons, E, IH.
Qed.

Lemma drop_line_head s : drop_line s = [] \/ exists t, drop_line s = LF :: t.
Proof.
  induction s as [|c s IH]; simpl; auto.
  destruct (N.eqb_spec c LF) as [->|]; eauto.
Qed.

Lemma first_line_app_newline_free a b :
  newline_free a = true -> first_line (a ++ b) = a ++ first_line b.
Proof.
  induction a as [|c a IH]; simpl; auto.
  rewrite newline_free_cons. intro H. apply andb_prop in H as [Hc H].
  apply negb_true_iff in Hc. rewrite Hc. now rewrite IH.
Qed.

(** ** The version at the head of a text *)

Lemma last_in_line_sound c s i :
  last_in_line c s = Some i ->
  s = firstn i s ++ c :: skipn (S i) s /\ newline_free (firstn i s) = true.
Proof.
  revert i; induction s as [|d s IH]; intros i; simpl; [discriminate|].
  destruct (N.eqb d LF) eqn:Ed; [discriminate|].
  destruct (last_in_line c s) as [j|].
  - intros [= <-]. destruct (IH j eq_refl) as [E F]. split.
    + change (d :: s = d :: (firstn j s ++ c :: skipn (S j) s)).
      now f_equal.
    + cbn [firstn]. now rewrite newline_free_cons, Ed, F.
  - destruct (N.eqb_spec c d) as [->|]; [|discriminate].
    intros [= <-]. now split.
Qed.

Lemma last_in_line_end c v rest :
  newline_free v = true -> c <> LF ->
  (rest = [] \/ exists t, rest = LF :: t) ->
  last_in_line c (v ++ c :: rest) = Some (length v).
Proof.
  intros Hv Hc Hrest. induction v as [|d v IH]; simpl.
  - apply N.eqb_neq in Hc. rewrite Hc, N.eqb_refl.
    now destruct Hrest as [-> | [t ->]].
  - rewrite newline_free_cons in Hv. apply andb_prop in Hv as [Hd Hv].
    apply negb_true_iff in Hd. now rewrite Hd, IH.
Qed.

Lemma version_at_sound name s v :
  version_at name s = Some v ->
  exists ws post,
    s = name ++ ws :: LPAREN :: v ++ RPAREN :: post
    /\ is_space ws = true /\ newline_free v = true.
Proof.
  unfold version_at. destruct (prefixb name s) eqn:Hp; [|discriminate].
  apply prefixb_split in Hp.
  destruct (skipn (length name) s) as [|ws [|p tail]]; try discriminate.
  destruct (is_space ws) eqn:Hws; [|discriminate].
  destruct (N.eqb_spec p LPAREN) as [->|]; [|discriminate]. cbn [andb].
  destruct (last_in_line RPAREN tail) as [i|] eqn:Hl; [|discriminate].
  intros [= <-]. apply last_in_line_sound in Hl as [E F].
  exists ws, (skipn (S i) tail). now rewrite <- E.
Qed.

Lemma version_at_line name v rest :
  newline_free v = true ->
  (rest = [] \/ exists t, rest = LF :: t) ->
  version_at name (name ++ SPACE :: LPAREN :: v ++ RPAREN :: rest) = Some v.
Proof.
  intros Hv Hrest. unfold version_at.
  rewrite prefixb_app, skipn_app_length. cbn [is_space andb].
  change (is_space SPACE && N.eqb LPAREN LPAREN) with true. cbv iota.
  rewrite last_in_line_end by (auto; discriminate).
  cbn [option_map]. now rewrite firstn_app, Nat.sub_diag, firstn_all, app_nil_r.
Qed.

(** ** Lines of a text *)

Lemma lines_unfold s :
  lines s = first_line s
            :: match drop_line s with [] => [] | _ :: t => lines t end.
Proof.
  induction s as [|c s IH]; [reflexivity|].
  cbn [lines first_line drop_line].
  destruct (N.eqb c LF); [reflexivity|].
  now rewrite IH.
Qed.

Lemma lines_nonempty s : lines s <> [].
Proof. rewrite lines_unfold. discriminate. Qed.

Lemma join_lines_cons l ls :
  ls <> [] -> join_lines (l :: ls) = l ++ LF :: join_lines ls.
Proof. destruct ls; [congruence | reflexivity]. Qed.

Lemma join_lines_cons_char c l ls :
  join_lines ((c :: l) :: ls) = c :: join_lines (l :: ls).
Proof. destruct ls; reflexivity. Qed.

Lemma join_lines_lines s : join_lines (lines s) = s.
Proof.
  induction s as [|c s IH]; [reflexivity|].
  cbn [lines]. destruct (N.eqb c LF) eqn:Ec.
  - apply N.eqb_eq in Ec. subst c.
    rewrite join_lines_cons by apply lines_nonempty. now rewrite IH.
  - destruct (lines s) as [|l ls] eqn:E; [now apply lines_nonempty in E|].
    rewrite join_lines_cons_char. f_equal. exact IH.
Qed.

Lemma drop_line_app_newline_free a b :
  newline_free a = true -> drop_line (a ++ b) = drop_line b.
Proof.
  induction a as [|c a IH]; simpl; auto.
  rewrite newline_free_cons. intro H. apply andb_prop in H as [Hc H].
  apply negb_true_iff in Hc. rewrite Hc. now apply IH.
Qed.

Lemma prefixb_first_line p s :
  newline_free p = true -> prefixb p (first_line s) = prefixb p s.
Proof.
  revert s; induction p as [|x p IH]; intros [|c s] H; try reflexivity.
  rewrite newline_free_cons in H. apply andb_prop in H as [Hx H].
  apply negb_true_iff in Hx. cbn [first_line prefixb].
  destruct (N.eqb_spec c LF) as [->|_].
  - now rewrite Hx.
  - cbn [prefixb]. now rewrite IH.
Qed.

Lemma firstn_first_line s : firstn (length (first_line s)) s = first_line s.
Proof.
  rewrite (first_drop_line s) at 2.
  now rewrite firstn_app, Nat.sub_diag, firstn_all, app_nil_r.
Qed.

Lemma length_drop_line s : length (drop_line s) <= length s.
Proof.
  induction s as [|c s IH]; simpl; auto.
  destruct (N.eqb c LF); simpl; lia.
Qed.

(** ** Matching a pin: literal characters, then [.*] *)

Lemma match_here_close r s pos marks :
  match_here (Close :: r) s pos marks = match_here r s pos (marks ++ [pos]).
Proof. reflexivity. Qed.

Lemma re_match_pin l s :
  re_match (lits l ++ [Star AnyChar]) s
  = if prefixb l s
    then Some {| m_end := length l + length (first_line (skipn (length l) s));
                 m_groups := [] |}
    else None.
Proof.
  unfold re_match. rewrite match_here_lits.
  destruct (prefixb l s); [|reflexivity].
  now rewrite match_here_dotstar with (m := (_, [])) by reflexivity.
Qed.

Lemma re_match_pin_group l s :
  re_match (lits l ++ [Open; Star AnyChar; Close]) s
  = if prefixb l s
    then Some {| m_end := length l + length (first_line (skipn (length l) s));
                 m_groups := [first_line (skipn (length l) s)] |}
    else None.
Proof.
  unfold re_match. rewrite match_here_lits.
  destruct (prefixb l s); [|reflexivity].
  rewrite match_here_open.
  rewrite match_here_dotstar with (m := (_, _))
    by (rewrite match_here_close; reflexivity).
  cbn [app groups_of Nat.add]. unfold slice.
  replace (length l + length (first_line (skipn (length l) s)) - length l)
    with (length (first_line (skipn (length l) s))) by lia.
  now rewrite firstn_first_line.
Qed.

(** ** [findall] and [sub] with a pin *)

Lemma findall_first l s :
  hd_error (findall_from (lits l ++ [Open; Star AnyChar; Close]) s 0)
  = option_map (fun i => first_line (skipn (i + length l) s)) (find l s).
Proof.
  induction s as [|c s IH]; cbn [findall_from find]; rewrite re_match_pin_group.
  - now destruct (prefixb l []).
  - destruct (prefixb l (c :: s)); [reflexivity|].
    rewrite IH. now destruct (find l s).
Qed.

Lemma sub_from_skip r filler a b :
  sub_from r filler (a ++ b) (length a) = sub_from r filler b 0.
Proof. induction a; simpl; auto. Qed.

Lemma sub_line_nil p filler : p <> [] -> sub_line p filler [] = [].
Proof. destruct p; [congruence | reflexivity]. Qed.

Lemma sub_line_unfold p filler l :
  sub_line p filler l
  = if prefixb p l then filler
    else match l with [] => [] | c :: l' => c :: sub_line p filler l' end.
Proof. destruct l; reflexivity. Qed.

Lemma sub_line_here p filler t : sub_line p filler (p ++ t) = filler.
Proof. now rewrite sub_line_unfold, prefixb_app. Qed.

(** At a pin, [sub] puts the filler for the pin and the rest of its line. *)
Lemma sub_from_pin_here x l filler t :
  sub_from (lits (x :: l) ++ [Star AnyChar]) filler ((x :: l) ++ t) 0
  = filler ++ sub_from (lits (x :: l) ++ [Star AnyChar]) filler (drop_line t) 0.
Proof.
  cbn [app sub_from]. rewrite re_match_pin.
  change (x :: l ++ t) with ((x :: l) ++ t).
  rewrite prefixb_app, skipn_app_length. cbn [m_end length Nat.add].
  f_equal.
  rewrite (first_drop_line t) at 1. rewrite app_assoc.
  replace (length l + length (first_line t))
    with (length (l ++ first_line t)) by now rewrite length_app.
  apply sub_from_skip.
Qed.

Lemma map_lines_nonempty (f : text -> text) s : map f (lines s) <> [].
Proof. intro H. apply map_eq_nil in H. now apply lines_nonempty in H. Qed.

Lemma sub_from_pin_bounded l filler n :
  l <> [] -> newline_free l = true ->
  forall s, length s <= n ->
  sub_from (lits l ++ [Star AnyChar]) filler s 0
  = join_lines (map (sub_line l filler) (lines s)).
Proof.
  intros Hl Hfree. destruct l as [|x l]; [congruence|].
  induction n as [|n IH]; intros s Hlen.
  - destruct s; [reflexivity | simpl in Hlen; lia].
  - destruct (prefixb (x :: l) s) eqn:Hp.
    + (* the pin is here: the rest of the line goes with it *)
      apply prefixb_split in Hp.
      set (t := skipn (length (x :: l)) s) in Hp. clearbody t. subst s.
      rewrite sub_from_pin_here.
      rewrite IH.
      2:{ pose proof (length_drop_line t).
          rewrite length_app in Hlen. simpl in Hlen. lia. }
      rewrite (lines_unfold (_ ++ t)).
      rewrite (first_drop_line t) at 2 3. rewrite app_assoc.
      assert (Hfree' : newline_free ((x :: l) ++ first_line t) = true)
        by now rewrite newline_free_app, Hfree, first_line_newline_free.
      rewrite first_line_app_newline_free, drop_line_app_newline_free
        by exact Hfree'.
      destruct (drop_line_head t) as [-> | [u ->]].
      * cbn [first_line drop_line lines map join_lines].
        now rewrite <- app_assoc, sub_line_here, sub_line_nil, app_nil_r.
      * cbn [first_line drop_line lines map]. rewrite N.eqb_refl.
        cbn [map]. rewrite <- app_assoc, sub_line_here, sub_line_nil by exact Hl.
        now rewrite !join_lines_cons by apply map_lines_nonempty.
    + (* no pin here: the character stays *)
      destruct s as [|c s]; [reflexivity|].
      cbn [sub_from]. rewrite re_match_pin, Hp.
      rewrite IH by (simpl in Hlen; lia).
      cbn [lines]. destruct (N.eqb c LF) eqn:Hc.
      * apply N.eqb_eq in Hc. subst c. cbn [map sub_line prefixb].
        now rewrite join_lines_cons by apply map_lines_nonempty.
      * rewrite lines_unfold. cbn [map].
        assert (Hq : prefixb (x :: l) (c :: first_line s) = false).
        { rewrite <- Hp, <- (@prefixb_first_line (x :: l) (c :: s)) by assumption.
          cbn [first_line]. now rewrite Hc. }
        cbn [sub_line]. rewrite Hq.
        now rewrite join_lines_cons_char.
Qed.

Lemma sub_from_pin l filler s :
  l <> [] -> newline_free l = true ->
  sub_from (lits l ++ [Star AnyChar]) filler s 0
  = join_lines (map (sub_line l filler) (lines s)).
Proof. intros. now apply sub_from_pin_bounded with (n := length s). Qed.

(** ** The query of the package index *)

Lemma plain_iree_base_compiler : plain_name (str "iree-base-compiler") = true.
Proof. reflexivity. Qed.

Lemma plain_iree_base_runtime : plain_name (str "iree-base-runtime") = true.
Proof. reflexivity. Qed.

(** The query returns a version or raises its [RuntimeError]. *)
Lemma get_latest_package_version_cases pip name extra :
  plain_name name = true ->
  (exists v, get_latest_package_version pip name extra = Ok v
             /\ version_at name (pip name extra) = Some v)
  \/ (get_latest_package_version pip name extra = Raised no_version
      /\ version_at name (pip name extra) = None).
Proof.
  intro Hn. rewrite get_latest_package_version_spec by exact Hn.
  destruct (version_at name (pip name extra)) as [v|]; eauto.
Qed.

(** C3.  When the output of the package index holds no text of the form
    [<package-name> (<version>)] (the name, a white space character and a
    parenthesised version on one line), the query raises its RuntimeError
    and returns no version. *)
Theorem no_version_raises (pip : text -> list text -> text) (name : text)
  (extra : list text) :
  plain_name name = true ->
  (forall pre ws v post,
      is_space ws = true -> newline_free v = true ->
      pip name extra <> pre ++ name ++ ws :: LPAREN :: v ++ RPAREN :: post) ->
  get_latest_package_version pip name extra
  = Raised (RuntimeError (str "Failed to find a package version using regex")).
Proof.
  intros Hn Hnone.
  destruct (@get_latest_package_version_cases pip name extra Hn) as [(v & _ & Hv) | [E _]].
  - apply version_at_sound in Hv as (ws & post & E & Hws & Hnl).
    exfalso. exact (Hnone [] ws v post Hws Hnl E).
  - exact E.
Qed.

Lemma no_version_raises_witness :
  get_latest_package_version (fun _ _ => []) (str "iree-base-compiler")
    iree_nightly_pip_args
  = Raised (RuntimeError (str "Failed to find a package version using regex")).
Proof.
  apply (@no_version_raises (fun _ _ => []) (str "iree-base-compiler")
           iree_nightly_pip_args).
  - reflexivity.
  - intros pre ws v post _ _ H. symmetry in H.
    apply app_eq_nil in H as [_ H]. discriminate H.
Defined.

(** C4.  When the first line of the output is [<package-name> (<version>)],
    the query returns exactly the text between the parentheses. *)
Theorem version_of_first_line (pip : text -> list text -> text)
  (name v : text) (extra : list text) :
  plain_name name = true ->
  first_line (pip name extra) = name ++ str " (" ++ v ++ str ")" ->
  get_latest_package_version pip name extra = Ok v.
Proof.
  intros Hn Hl.
  rewrite get_latest_package_version_spec by exact Hn.
  pose proof (first_line_newline_free (pip name extra)) as Hfree.
  rewrite (first_drop_line (pip name extra)), Hl.
  rewrite Hl, !newline_free_app in Hfree.
  apply andb_prop in Hfree as [_ Hfree].
  apply andb_prop in Hfree as [_ Hfree].
  apply andb_prop in Hfree as [Hv _].
  change (str " (") with [SPACE; LPAREN]. change (str ")") with [RPAREN].
  replace ((name ++ [SPACE; LPAREN] ++ v ++ [RPAREN]) ++ drop_line (pip name extra))
    with (name ++ SPACE :: LPAREN :: v ++ RPAREN :: drop_line (pip name extra))
    by (now rewrite <- !app_assoc).
  now rewrite version_at_line by (auto using drop_line_head).
Qed.

Lemma version_of_first_line_witness :
  get_latest_package_version (fun _ _ => pip_answer) (str "iree-base-compiler")
    iree_nightly_pip_args
  = Ok (str "3.2.0rc20250109").
Proof.
  apply (@version_of_first_line (fun _ _ => pip_answer)
           (str "iree-base-compiler") (str "3.2.0rc20250109")
           iree_nightly_pip_args).
  - reflexivity.
  - reflexivity.
Defined.

(** C8.  When a text of the form [<package-name> (<version>)] occurs in the
    output but the output does not start with one, the query raises its
    RuntimeError: the pattern is applied with [match], at offset 0 only. *)
Theorem later_version_raises (pip : text -> list text -> text)
  (name pre v post : text) (ws : char) (extra : list text) :
  plain_name name = true ->
  is_space ws = true -> newline_free v = true ->
  pip name extra = pre ++ name ++ ws :: LPAREN :: v ++ RPAREN :: post ->
  (forall ws' v' post',
      is_space ws' = true -> newline_free v' = true ->
      pip name extra <> name ++ ws' :: LPAREN :: v' ++ RPAREN :: post') ->
  get_latest_package_version pip name extra
  = Raised (RuntimeError (str "Failed to find a package version using regex")).
Proof.
  intros Hn _ _ _ Hstart.
  destruct (@get_latest_package_version_cases pip name extra Hn) as [(u & _ & Hu) | [E _]].
  - apply version_at_sound in Hu as (ws' & post' & E & Hws & Hnl).
    exfalso. exact (Hstart ws' u post' Hws Hnl E).
  - exact E.
Qed.

Lemma later_version_raises_witness :
  get_latest_package_version (fun _ _ => pip_answer_after_warning)
    (str "iree-base-compiler") iree_nightly_pip_args
  = Raised (RuntimeError (str "Failed to find a package version using regex")).
Proof.
  apply (@later_version_raises (fun _ _ => pip_answer_after_warning)
           (str "iree-base-compiler")
           (str "WARNING: pip index is experimental" ++ [LF])
           (str "3.2.0rc20250109") [LF] SPACE iree_nightly_pip_args).
  - reflexivity.
  - reflexivity.
  - reflexivity.
  - reflexivity.
  - intros ws' v' post' _ _ H. discriminate H.
Defined.

(** ** The steps of [main] *)

Lemma backslash_free_cons c s :
  backslash_free (c :: s) = negb (N.eqb c BACKSLASH) && backslash_free s.
Proof.
  unfold backslash_free, char_in. cbn [existsb].
  now rewrite negb_orb, (N.eqb_sym BACKSLASH c).
Qed.

Lemma backslash_free_app a b :
  backslash_free (a ++ b) = backslash_free a && backslash_free b.
Proof.
  induction a as [|x a IH]; [reflexivity|].
  cbn [app]. rewrite !backslash_free_cons, IH. now rewrite andb_assoc.
Qed.

(** A replacement without a backslash stands for itself. *)
Lemma expand_template_plain repl :
  backslash_free repl = true -> expand_template repl = Ok repl.
Proof.
  induction repl as [|c repl IH]; [reflexivity|].
  rewrite backslash_free_cons. intro H. apply andb_prop in H as [Hc H].
  apply negb_true_iff in Hc. cbn [expand_template]. rewrite Hc, IH by exact H.
  reflexivity.
Qed.

Lemma re_sub_pin l repl s :
  l <> [] -> newline_free l = true -> backslash_free repl = true ->
  re_compile (l ++ str ".*") = Some (lits l ++ [Star AnyChar]) ->
  re_sub (l ++ str ".*") repl s
  = Ok (join_lines (map (sub_line l repl) (lines s))).
Proof.
  intros Hl Hfree Hrepl Hc. unfold re_sub. rewrite Hc.
  rewrite expand_template_plain by exact Hrepl. cbn [bind].
  now rewrite sub_from_pin.
Qed.

(** The two substitutions, line by line, for versions without a
    backslash. *)
Lemma pin_versions_plain cv rv t :
  backslash_free cv = true -> backslash_free rv = true ->
  pin_versions cv rv t
  = Ok (join_lines
          (map (sub_line RUNTIME_PIN (RUNTIME_PIN ++ rv))
             (lines (join_lines
                       (map (sub_line COMPILER_PIN (COMPILER_PIN ++ cv))
                          (lines t)))))).
Proof.
  intros Hcv Hrv. unfold pin_versions.
  change (str "iree-base-compiler==.*") with (COMPILER_PIN ++ str ".*").
  change (str "iree-base-runtime==.*") with (RUNTIME_PIN ++ str ".*").
  change (str "iree-base-compiler==") with COMPILER_PIN.
  change (str "iree-base-runtime==") with RUNTIME_PIN.
  rewrite re_sub_pin; try reflexivity; try discriminate.
  2:{ now rewrite backslash_free_app, Hcv. }
  cbn [bind].
  rewrite re_sub_pin; try reflexivity; try discriminate.
  now rewrite backslash_free_app, Hrv.
Qed.

(** The first item [findall] lists for the compiler pin: what follows the
    first pin on its line; an IndexError when there is no pin. *)
Lemma old_version_spec t :
  (found <- re_findall (str "iree-base-compiler==(.*)") t ;; first_item found)
  = match find COMPILER_PIN t with
    | Some i => Ok (first_line (skipn (i + length COMPILER_PIN) t))
    | None => Raised IndexError
    end.
Proof.
  unfold re_findall.
  change (re_compile (str "iree-base-compiler==(.*)"))
    with (Some (lits COMPILER_PIN ++ [Open; Star AnyChar; Close])).
  cbv beta iota.
  change (2 <=? group_count (lits COMPILER_PIN ++ [Open; Star AnyChar; Close]))
    with false.
  cbn [bind].
  pose proof (findall_first COMPILER_PIN t) as H.
  destruct (findall_from _ t 0) as [|x found];
    destruct (find COMPILER_PIN t); cbn [hd_error option_map] in H;
    try discriminate H; [reflexivity|].
  injection H as ->. reflexivity.
Qed.

(** [main], step by step. *)
Lemma main_unfold pip fs :
  main pip fs
  = match get_latest_package_version pip (str "iree-base-compiler")
      iree_nightly_pip_args with
    | Ok cv =>
        match get_latest_package_version pip (str "iree-base-runtime")
      iree_nightly_pip_args with
        | Ok rv =>
            match requirements_iree_pinned fs with
            | Some t =>
                match find COMPILER_PIN t with
                | Some i =>
                    match pin_versions cv rv t with
                    | Ok t' =>
                        (Ok tt,
                         {| requirements_iree_pinned := Some t';
                            update_iree_version_text :=
                              Some (body_text
                                      (first_line
                                         (skipn (i + length COMPILER_PIN) t))
                                      cv) |})
                    | Raised e => (Raised e, fs)
                    | Unmodelled => (Unmodelled, fs)
                    end
                | None => (Raised IndexError, fs)
                end
            | None => (Raised FileNotFoundError, fs)
            end
        | Raised e => (Raised e, fs)
        | Unmodelled => (Unmodelled, fs)
        end
    | Raised e => (Raised e, fs)
    | Unmodelled => (Unmodelled, fs)
    end.
Proof.
  unfold main, mbind, pure, read_text, write_text.
  destruct (get_latest_package_version pip (str "iree-base-compiler")
      iree_nightly_pip_args);
    try reflexivity.
  destruct (get_latest_package_version pip (str "iree-base-runtime")
      iree_nightly_pip_args);
    try reflexivity.
  cbn [lookup]. destruct (requirements_iree_pinned fs) as [t|]; [|reflexivity].
  rewrite old_version_spec.
  destruct (find COMPILER_PIN t); [|reflexivity].
  destruct (pin_versions _ _ t); reflexivity.
Qed.

(** Whatever fails in [main] fails before the first write. *)
Lemma main_failure_writes_nothing pip fs o fs' :
  main pip fs = (o, fs') -> o <> Ok tt -> fs' = fs.
Proof.
  rewrite main_unfold.
  destruct (get_latest_package_version pip (str "iree-base-compiler")
      iree_nightly_pip_args);
    [|intros [= <- <-]; reflexivity ..].
  destruct (get_latest_package_version pip (str "iree-base-runtime")
      iree_nightly_pip_args);
    [|intros [= <- <-]; reflexivity ..].
  destruct (requirements_iree_pinned fs) as [t|];
    [|intros [= <- <-]; reflexivity].
  destruct (find COMPILER_PIN t); [|intros [= <- <-]; reflexivity].
  destruct (pin_versions _ _ t); intros [= <- <-]; congruence.
Qed.

(** ** Failures of [main] *)


(** C9.  When the query for either package raises, [main] raises as well and
    writes neither the requirements file nor the commit message: the files
    are as they were. *)
Theorem failed_query_writes_nothing (pip : text -> list text -> text) (fs : files)
  (e : exception) :
  get_latest_package_version pip (str "iree-base-compiler")
      iree_nightly_pip_args = Raised e
  \/ get_latest_package_version pip (str "iree-base-runtime")
      iree_nightly_pip_args = Raised e ->
  exists e', main pip fs = (Raised e', fs).
Proof.
  intro H. rewrite main_unfold.
  destruct (@get_latest_package_version_cases pip (str "iree-base-compiler")
              iree_nightly_pip_args
              plain_iree_base_compiler) as [(cv & Ec & _) | [Ec _]];
    rewrite Ec in *; [|eauto].
  destruct H as [H | H]; [discriminate H|].
  rewrite H. eauto.
Qed.

Lemma failed_query_writes_nothing_witness :
  exists e', main (fun _ _ => []) both_pins = (Raised e', both_pins).
Proof.
  apply (@failed_query_writes_nothing (fun _ _ => []) both_pins no_version).
  left. reflexivity.
Defined.

(** C2, as stated, fails: a file in which no line starts with a pin, the
    only pin being commented out, is rewritten and [main] returns. *)
Lemma commented_pin_is_rewritten :
  has_line_starting (str "iree-base-compiler==")
    (str "# iree-base-compiler==3.1.0") = false
  /\ has_line_starting (str "iree-base-runtime==")
       (str "# iree-base-compiler==3.1.0") = false
  /\ requirements_iree_pinned commented_pin
     = Some (str "# iree-base-compiler==3.1.0")
  /\ fst (main pip_release commented_pin) = Ok tt
  /\ requirements_iree_pinned (snd (main pip_release commented_pin))
     = Some (str "# iree-base-compiler==3.2.0rc20250109").
Proof. vm_compute. repeat split. Qed.

(** C2, amended.  When [iree-base-compiler==] occurs nowhere in the
    requirements file, [main] raises and writes no file; the exception is
    an IndexError when both queries returned a version. *)
Theorem missing_compiler_pin_raises (pip : text -> list text -> text) (fs : files)
  (t : text) :
  requirements_iree_pinned fs = Some t ->
  contains (str "iree-base-compiler==") t = false ->
  (exists e, main pip fs = (Raised e, fs))
  /\ (forall cv rv,
         get_latest_package_version pip (str "iree-base-compiler")
      iree_nightly_pip_args = Ok cv ->
         get_latest_package_version pip (str "iree-base-runtime")
      iree_nightly_pip_args = Ok rv ->
         main pip fs = (Raised IndexError, fs)).
Proof.
  intros Ht Hno. change (str "iree-base-compiler==") with COMPILER_PIN in Hno.
  unfold contains in Hno.
  destruct (find COMPILER_PIN t) eqn:Hf; [discriminate|].
  rewrite main_unfold, Ht, Hf. split.
  - destruct (@get_latest_package_version_cases pip (str "iree-base-compiler")
              iree_nightly_pip_args
                plain_iree_base_compiler) as [(cv & -> & _) | [-> _]]; [|eauto].
    destruct (@get_latest_package_version_cases pip (str "iree-base-runtime")
              iree_nightly_pip_args
                plain_iree_base_runtime) as [(rv & -> & _) | [-> _]]; eauto.
  - now intros cv rv -> ->.
Qed.

Lemma missing_compiler_pin_raises_witness :
  main pip_release no_pins = (Raised IndexError, no_pins).
Proof.
  destruct (@missing_compiler_pin_raises pip_release no_pins
              (str "numpy==1.26.4" ++ [LF]) eq_refl eq_refl) as [_ H].
  apply (H (str "3.2.0rc20250109") (str "3.2.0rc20250109")); reflexivity.
Defined.

(** ** Lines up to a newline *)

Lemma first_line_before_newline a b :
  newline_free a = true -> first_line (a ++ LF :: b) = a.
Proof.
  intro H. rewrite first_line_app_newline_free by exact H.
  cbn [first_line]. rewrite N.eqb_refl. apply app_nil_r.
Qed.

(** ** First occurrences *)

Lemma find_unfold p s :
  find p s = if prefixb p s then Some 0
             else match s with [] => None | _ :: s' => option_map S (find p s') end.
Proof. destruct s; reflexivity. Qed.

Lemma prefixb_length p s : prefixb p s = true -> length p <= length s.
Proof.
  intro H. apply prefixb_split in H. rewrite H, length_app. lia.
Qed.

Lemma prefixb_app_r p s v : prefixb p s = true -> prefixb p (s ++ v) = true.
Proof.
  intro H. apply prefixb_split in H. rewrite H, <- app_assoc.
  apply prefixb_app.
Qed.

Lemma prefixb_app_false p s v :
  prefixb p s = false -> length p <= length s -> prefixb p (s ++ v) = false.
Proof.
  revert s; induction p as [|x p IH]; intros [|y s]; simpl;
    try discriminate; try lia.
  intros H Hlen. destruct (N.eqb x y); [|reflexivity].
  cbn [andb] in *. apply IH; [exact H | lia].
Qed.

Lemma find_bound p s i : find p s = Some i -> i + length p <= length s.
Proof.
  revert i; induction s as [|c s IH]; intro i; rewrite find_unfold;
    destruct (prefixb p _) eqn:Hp; try discriminate.
  - intros [= <-]. now apply prefixb_length in Hp.
  - intros [= <-]. now apply prefixb_length in Hp.
  - destruct (find p s) as [j|]; [|discriminate].
    intros [= <-]. specialize (IH j eq_refl). simpl. lia.
Qed.

(** An occurrence found in a text is found at the same place in every text
    that extends it. *)
Lemma find_app_some p s v i : find p s = Some i -> find p (s ++ v) = Some i.
Proof.
  revert i; induction s as [|c s IH]; intro i;
    rewrite find_unfold, (find_unfold p (_ ++ v));
    destruct (prefixb p _) eqn:Hp; try discriminate.
  - intros [= <-]. now rewrite prefixb_app_r.
  - intros [= <-]. now rewrite prefixb_app_r.
  - destruct (find p s) as [j|] eqn:Hj; [|discriminate].
    intros [= <-]. apply find_bound in Hj as Hb.
    rewrite prefixb_app_false by (auto; simpl; lia).
    cbn [app]. now rewrite (IH j eq_refl).
Qed.

(** [first_at p u]: in [u ++ p], the first occurrence of [p] is the one at
    the end. *)
Lemma find_decompose p l i :
  find p l = Some i ->
  exists u x, l = u ++ p ++ x /\ length u = i
              /\ find p (u ++ p) = Some (length u).
Proof.
  revert i; induction l as [|c l IH]; intro i; rewrite find_unfold;
    destruct (prefixb p _) eqn:Hp; try discriminate.
  - intros [= <-]. exists [], (skipn (length p) []).
    repeat split; [now apply prefixb_split|].
    cbn [app length]. rewrite find_unfold.
    now rewrite <- (app_nil_r p) at 2; rewrite prefixb_app.
  - intros [= <-]. exists [], (skipn (length p) (c :: l)).
    repeat split; [now apply prefixb_split|].
    cbn [app length]. rewrite find_unfold.
    now rewrite <- (app_nil_r p) at 2; rewrite prefixb_app.
  - destruct (find p l) as [j|]; [|discriminate].
    intros [= <-]. destruct (IH j eq_refl) as (u & x & -> & <- & Hu).
    exists (c :: u), x. repeat split.
    cbn [app length]. rewrite find_unfold.
    destruct (prefixb p (c :: u ++ p)) eqn:Hq.
    + apply prefixb_app_r with (v := x) in Hq.
      cbn [app] in Hq. rewrite <- app_assoc in Hq. congruence.
    + now rewrite Hu.
Qed.

Lemma sub_line_found p w u x :
  find p (u ++ p) = Some (length u) -> sub_line p w (u ++ p ++ x) = u ++ w.
Proof.
  induction u as [|c u IH]; intro H.
  - cbn [app]. apply sub_line_here.
  - rewrite find_unfold in H. cbn [app length] in H.
    destruct (prefixb p (c :: u ++ p)) eqn:Hp; [discriminate|].
    destruct (find p (u ++ p)) as [j|] eqn:Hj; [|discriminate].
    injection H as ->.
    rewrite sub_line_unfold. cbn [app].
    apply find_bound in Hj as Hb.
    apply prefixb_app_false with (v := x) in Hp;
      [|simpl; rewrite length_app in *; lia].
    cbn [app] in Hp. rewrite <- app_assoc in Hp. rewrite Hp.
    f_equal. now apply IH.
Qed.

Lemma sub_line_none p w l : find p l = None -> sub_line p w l = l.
Proof.
  induction l as [|c l IH]; rewrite find_unfold, sub_line_unfold;
    destruct (prefixb p _); try discriminate; [reflexivity|].
  destruct (find p l); [discriminate|]. intros _. now rewrite IH.
Qed.

(** Once pinned, a line stays as it is under the same substitution. *)
Lemma sub_line_idem p y l :
  sub_line p (p ++ y) (sub_line p (p ++ y) l) = sub_line p (p ++ y) l.
Proof.
  destruct (find p l) as [i|] eqn:Hf.
  - apply find_decompose in Hf as (u & x & -> & _ & Hu).
    rewrite sub_line_found by exact Hu. now apply sub_line_found.
  - now rewrite !(@sub_line_none p (p ++ y) l Hf).
Qed.

Lemma find_occurs p k x : find p (k ++ p ++ x) <> None.
Proof.
  induction k as [|c k IH]; rewrite find_unfold.
  - cbn [app]. now rewrite prefixb_app.
  - destruct (prefixb p _); [discriminate|].
    cbn [app]. destruct (find p (k ++ p ++ x)); [discriminate | congruence].
Qed.

(** ** Pins that cannot overlap *)

Lemma agree_common a b x z : a ++ x = b ++ z -> agree a b = true.
Proof.
  revert b; induction a as [|c a IH]; intros [|d b]; try reflexivity.
  cbn [app agree]. intros [= <- H]. rewrite N.eqb_refl. now apply IH in H.
Qed.

Lemma overlap_excluded a b k k2 x z :
  overlaps a b = false -> a = k ++ k2 -> k2 <> [] -> k2 ++ x = b ++ z -> False.
Proof.
  intros Hno -> Hk2 E. apply agree_common in E.
  assert (H : overlaps (k ++ k2) b = true); [|congruence].
  unfold overlaps. apply existsb_exists. exists (length k). split.
  - apply in_seq. rewrite length_app. destruct k2; [congruence|]. simpl. lia.
  - now rewrite skipn_app_length.
Qed.

(** ** Two pins on a line *)

Section PinLine.

Variables (A B Y Z : text).
Hypothesis no_AB : overlaps A B = false.
Hypothesis no_BA : overlaps B A = false.

Local Abbreviation f := (sub_line A (A ++ Y)).
Local Abbreviation g := (sub_line B (B ++ Z)).

(** Substituting both pins a second time changes nothing. *)
Lemma sub_line_twice l : g (f (g (f l))) = g (f l).
Proof.
  assert (Hfm : f (f l) = f l) by apply sub_line_idem.
  set (m := f l) in *. clearbody m.
  destruct (find B m) as [j|] eqn:HB.
  2:{ rewrite (@sub_line_none B (B ++ Z) m HB).
      rewrite Hfm. now apply sub_line_none. }
  apply find_decompose in HB as (u & x & -> & _ & Hu).
  assert (Hg : forall w, g (u ++ B ++ w) = u ++ B ++ Z)
    by (intro w; now apply sub_line_found).
  rewrite !Hg.
  destruct (find A (u ++ B ++ Z)) as [i|] eqn:HA.
  2:{ rewrite (@sub_line_none A (A ++ Y) _ HA). apply Hg. }
  apply find_decompose in HA as (u' & x' & E & _ & Hu').
  rewrite E at 1. rewrite sub_line_found by exact Hu'.
  assert (inside_u : forall k2, u = u' ++ A ++ k2 ->
                                g (u' ++ A ++ Y) = u ++ B ++ Z).
  { intros k2 Eu.
    assert (Em : u ++ B ++ x = u' ++ A ++ (k2 ++ B ++ x))
      by (rewrite Eu; now rewrite <- !app_assoc).
    rewrite Em in Hfm.
    rewrite sub_line_found in Hfm by exact Hu'.
    rewrite Hfm, <- Em. apply Hg. }
  apply app_eq_app in E as [k [[Eu E] | [Eu' E]]].
  - (* the compiler pin starts before the runtime pin *)
    symmetry in E. apply app_eq_app in E as [k2 [[Ek E] | [EA E]]].
    + apply (inside_u k2). now rewrite Eu, Ek.
    + destruct k2 as [|c k2].
      * apply (inside_u []). rewrite Eu, EA. now rewrite !app_nil_r.
      * exfalso. symmetry in E.
        exact (@overlap_excluded A B k (c :: k2) x' Z no_AB EA
                 ltac:(discriminate) E).
  - (* the compiler pin starts in or after the runtime pin *)
    apply app_eq_app in E as [k2 [[EB E] | [Ek E]]].
    + destruct k2 as [|c k2].
      * rewrite app_nil_r in EB. subst k. rewrite Eu', <- app_assoc. apply Hg.
      * exfalso. symmetry in E.
        exact (@overlap_excluded B A k (c :: k2) Z x' no_BA EB
                 ltac:(discriminate) E).
    + rewrite Eu', Ek, <- !app_assoc. apply Hg.
Qed.

(** A line that starts with the first pin, when the new version holds no
    second pin. *)
Lemma sub_line_pinned X :
  contains B Y = false -> g (f (A ++ X)) = A ++ Y.
Proof.
  intro HY. rewrite sub_line_here.
  apply sub_line_none.
  destruct (find B (A ++ Y)) as [j|] eqn:HB; [exfalso | reflexivity].
  apply find_decompose in HB as (u & x & E & _ & _).
  unfold contains in HY.
  apply app_eq_app in E as [k [[EA E] | [Eu E]]].
  - destruct k as [|c k].
    + cbn [app] in E. subst Y.
      pose proof (@find_occurs B [] x) as H. cbn [app] in H.
      destruct (find B (B ++ x)); [discriminate | congruence].
    + exact (@overlap_excluded A B u (c :: k) Y x no_AB EA
               ltac:(discriminate) (eq_sym E)).
  - subst Y. pose proof (@find_occurs B k x) as H.
    destruct (find B (k ++ B ++ x)); [discriminate | congruence].
Qed.

(** A line without pins. *)
Lemma sub_line_unpinned l :
  contains A l = false -> contains B l = false -> g (f l) = l.
Proof.
  unfold contains. intros HA HB.
  destruct (find A l) eqn:EA; [discriminate|].
  destruct (find B l) eqn:EB; [discriminate|].
  rewrite (@sub_line_none A (A ++ Y) l EA).
  now apply sub_line_none.
Qed.

End PinLine.

Section SecondPin.

Variables (A B Y Z : text).
Hypothesis no_BA : overlaps B A = false.

(** A line that starts with the second pin. *)
Lemma sub_line_second_pinned X :
  sub_line B (B ++ Z) (sub_line A (A ++ Y) (B ++ X)) = B ++ Z.
Proof.
  destruct (find A (B ++ X)) as [i|] eqn:HA.
  2:{ rewrite (@sub_line_none A (A ++ Y) _ HA). apply sub_line_here. }
  apply find_decompose in HA as (u & x & E & _ & Hu).
  rewrite E, sub_line_found by exact Hu.
  apply app_eq_app in E as [k [[EB E] | [Eu E]]].
  - destruct k as [|c k].
    + rewrite app_nil_r in EB. subst u. apply sub_line_here.
    + exfalso.
      exact (@overlap_excluded B A u (c :: k) X x no_BA EB
               ltac:(discriminate) (eq_sym E)).
  - rewrite Eu, <- app_assoc. apply sub_line_here.
Qed.

End SecondPin.

(** ** The two substitutions on a text *)


Lemma pins_do_not_overlap :
  overlaps COMPILER_PIN RUNTIME_PIN = false
  /\ overlaps RUNTIME_PIN COMPILER_PIN = false.
Proof. split; reflexivity. Qed.

Lemma lines_app_newline l t :
  newline_free l = true -> lines (l ++ LF :: t) = l :: lines t.
Proof.
  induction l as [|c l IH]; intro H.
  - cbn [app lines]. now rewrite N.eqb_refl.
  - rewrite newline_free_cons in H. apply andb_prop in H as [Hc H].
    apply negb_true_iff in Hc. cbn [app lines]. now rewrite Hc, IH.
Qed.

Lemma lines_single l : newline_free l = true -> lines l = [l].
Proof.
  induction l as [|c l IH]; intro H; [reflexivity|].
  rewrite newline_free_cons in H. apply andb_prop in H as [Hc H].
  apply negb_true_iff in Hc. cbn [lines]. now rewrite Hc, IH.
Qed.

Lemma lines_newline_free s :
  Forall (fun l => newline_free l = true) (lines s).
Proof.
  induction s as [|c s IH]; [now repeat constructor|].
  cbn [lines]. destruct (N.eqb c LF) eqn:Hc; [now constructor|].
  destruct (lines s) as [|l ls].
  - constructor; [|constructor]. now rewrite newline_free_cons, Hc.
  - inversion IH as [|? ? Hl Hls]; subst. constructor; [|exact Hls].
    now rewrite newline_free_cons, Hc.
Qed.

Lemma lines_join_lines ls :
  ls <> [] -> Forall (fun l => newline_free l = true) ls ->
  lines (join_lines ls) = ls.
Proof.
  induction ls as [|l ls IH]; [congruence|]. intros _ H.
  inversion H as [|? ? Hl Hls]; subst.
  destruct ls as [|l2 ls]; [now apply lines_single|].
  rewrite join_lines_cons by discriminate.
  rewrite lines_app_newline by exact Hl. f_equal.
  apply IH; [discriminate | exact Hls].
Qed.

Lemma sub_line_newline_free p w l :
  newline_free w = true -> newline_free l = true ->
  newline_free (sub_line p w l) = true.
Proof.
  intros Hw. induction l as [|c l IH]; intro Hl; rewrite sub_line_unfold;
    destruct (prefixb p _); auto.
  rewrite newline_free_cons in *. apply andb_prop in Hl as [Hc Hl].
  now rewrite Hc, IH.
Qed.

Lemma map_sub_line_newline_free p w ls :
  newline_free w = true ->
  Forall (fun l => newline_free l = true) ls ->
  Forall (fun l => newline_free l = true) (map (sub_line p w) ls).
Proof.
  intros Hw H. induction H; cbn [map]; constructor; auto.
  now apply sub_line_newline_free.
Qed.

(** The rewritten text, line by line. *)
Lemma pin_versions_lines cv rv t :
  backslash_free cv = true -> backslash_free rv = true ->
  newline_free cv = true ->
  pin_versions cv rv t = Ok (join_lines (map (pin_line cv rv) (lines t))).
Proof.
  intros Hcv Hrv Hn. rewrite pin_versions_plain by assumption.
  rewrite lines_join_lines.
  - now rewrite map_map.
  - apply map_lines_nonempty.
  - apply map_sub_line_newline_free; [|apply lines_newline_free].
    now rewrite newline_free_app, Hn.
Qed.

Lemma lines_pinned cv rv t :
  newline_free cv = true -> newline_free rv = true ->
  lines (join_lines (map (pin_line cv rv) (lines t)))
  = map (pin_line cv rv) (lines t).
Proof.
  intros Hcv Hrv. apply lines_join_lines; [apply map_lines_nonempty|].
  rewrite <- (map_map (sub_line COMPILER_PIN (COMPILER_PIN ++ cv))
                       (sub_line RUNTIME_PIN (RUNTIME_PIN ++ rv))).
  apply map_sub_line_newline_free; [now rewrite newline_free_app, Hrv|].
  apply map_sub_line_newline_free; [now rewrite newline_free_app, Hcv|].
  apply lines_newline_free.
Qed.

(** A queried version holds no newline. *)
Lemma queried_version_newline_free pip name extra v :
  plain_name name = true ->
  get_latest_package_version pip name extra = Ok v -> newline_free v = true.
Proof.
  intros Hn H.
  destruct (@get_latest_package_version_cases pip name extra Hn)
    as [(u & Eu & Hu) | [E _]]; [|congruence].
  rewrite Eu in H. injection H as <-.
  now apply version_at_sound in Hu as (ws & post & _ & _ & Hfree).
Qed.

(** A pin on a line of the text is a pin in the text. *)
Lemma find_in_line p t l :
  In l (lines t) -> find p l <> None -> find p t <> None.
Proof.
  revert l; induction t as [|c t IH]; intros l.
  - cbn [lines]. now intros [<- | []].
  - intros Hin Hl. rewrite lines_unfold in Hin. destruct Hin as [<- | Hin].
    + destruct (find p (first_line (c :: t))) as [i|] eqn:Hf; [|congruence].
      rewrite (first_drop_line (c :: t)).
      now rewrite (@find_app_some p _ (drop_line (c :: t)) i Hf).
    + assert (H : find p t <> None).
      { cbn [drop_line] in Hin. destruct (N.eqb c LF); [now apply (IH l)|].
        apply (IH l); [|exact Hl]. rewrite lines_unfold. now right. }
      rewrite find_unfold. destruct (prefixb p (c :: t)); [discriminate|].
      now destruct (find p t).
Qed.

(** ** The commit message *)

(** A text without the pattern, a newline, and a text: the first occurrence
    is the first one of the text after the newline. *)
Lemma find_after_line p l t :
  p <> [] -> newline_free p = true -> newline_free l = true ->
  find p l = None ->
  find p (l ++ LF :: t) = option_map (fun i => length l + 1 + i) (find p t).
Proof.
  intros Hp Hfree. induction l as [|c l IH]; intros Hl Hf.
  - cbn [app length]. rewrite find_unfold.
    destruct p as [|x p]; [congruence|].
    rewrite newline_free_cons in Hfree. apply andb_prop in Hfree as [Hx _].
    apply negb_true_iff in Hx. cbn [prefixb]. rewrite Hx. cbn [andb].
    destruct (find (x :: p) t); reflexivity.
  - rewrite find_unfold in Hf.
    destruct (prefixb p (c :: l)) eqn:Hpre; [discriminate|].
    destruct (find p l) as [j|] eqn:Hj; [discriminate|].
    rewrite newline_free_cons in Hl. apply andb_prop in Hl as [Hc Hl].
    cbn [app]. rewrite find_unfold.
    assert (E : prefixb p (c :: l ++ LF :: t) = false).
    { rewrite <- (@prefixb_first_line p (c :: l ++ LF :: t) Hfree).
      change (c :: l ++ LF :: t) with ((c :: l) ++ LF :: t).
      rewrite first_line_before_newline; [exact Hpre|].
      now rewrite newline_free_cons, Hc, Hl. }
    rewrite E, (IH Hl eq_refl).
    destruct (find p t); reflexivity.
Qed.

(** A line is its own first line. *)
Lemma first_line_newline_free_id X : newline_free X = true -> first_line X = X.
Proof.
  intro H. rewrite <- (app_nil_r X) at 1.
  rewrite first_line_app_newline_free by exact H. apply app_nil_r.
Qed.

(** When the first line that holds the pattern starts with it, what follows
    the first occurrence in the text is the rest of that line. *)
Lemma first_pin_line p X post pre t :
  p <> [] -> newline_free p = true ->
  lines t = pre ++ (p ++ X) :: post ->
  (forall l, In l pre -> contains p l = false) ->
  exists i, find p t = Some i /\ first_line (skipn (i + length p) t) = X.
Proof.
  intros Hp Hfree. revert t; induction pre as [|l pre IH]; intros t Ht Hpre.
  - exists 0. pose proof (lines_newline_free t) as Hall.
    rewrite Ht in Hall. cbn [app] in Hall.
    inversion Hall as [|? ? HpX _]; subst.
    rewrite newline_free_app in HpX. apply andb_prop in HpX as [_ HX].
    rewrite <- (join_lines_lines t), Ht. cbn [app Nat.add].
    destruct post as [|l2 post].
    + cbn [join_lines]. rewrite find_unfold, prefixb_app.
      split; [reflexivity|]. rewrite skipn_app_length.
      now apply first_line_newline_free_id.
    + rewrite join_lines_cons by discriminate.
      rewrite <- app_assoc.
      rewrite find_unfold, prefixb_app.
      split; [reflexivity|]. rewrite skipn_app_length.
      now apply first_line_before_newline.
  - pose proof (lines_newline_free t) as Hall.
    rewrite Ht in Hall. cbn [app] in Hall.
    inversion Hall as [|? ? Hl Hrest]; subst.
    destruct (IH (join_lines (pre ++ (p ++ X) :: post))) as (i & Hi & HX).
    { apply lines_join_lines; [now destruct pre | exact Hrest]. }
    { intros l' Hin. apply Hpre. now right. }
    exists (length l + 1 + i).
    rewrite <- (join_lines_lines t), Ht. cbn [app].
    rewrite join_lines_cons by now destruct pre.
    split.
    + rewrite find_after_line; auto.
      * now rewrite Hi.
      * specialize (Hpre l (or_introl eq_refl)). unfold contains in Hpre.
        now destruct (find p l).
    + replace (length l + 1 + i + length p)
        with (length l + (1 + (i + length p))) by lia.
      rewrite skipn_app, skipn_all2 by lia.
      replace (length l + (1 + (i + length p)) - length l)
        with (S (i + length p)) by lia.
      cbn [app skipn]. exact HX.
Qed.

(** The commit message [main] writes: the old version is what follows the
    first [iree-base-compiler==] of the file on its line. *)
Lemma commit_message_names_first_pin (pip : text -> list text -> text) (fs fs' : files) :
  main pip fs = (Ok tt, fs') ->
  exists new t i,
    get_latest_package_version pip (str "iree-base-compiler")
      iree_nightly_pip_args = Ok new
    /\ newline_free new = true
    /\ requirements_iree_pinned fs = Some t
    /\ find COMPILER_PIN t = Some i
    /\ update_iree_version_text fs'
       = Some (body_text (first_line (skipn (i + length COMPILER_PIN) t)) new).
Proof.
  rewrite main_unfold.
  destruct (@get_latest_package_version_cases pip (str "iree-base-compiler")
              iree_nightly_pip_args
              plain_iree_base_compiler) as [(cv & Ec & Hv) | [Ec _]];
    rewrite Ec; [|discriminate].
  destruct (get_latest_package_version pip (str "iree-base-runtime")
      iree_nightly_pip_args);
    try discriminate.
  destruct (requirements_iree_pinned fs) as [t|]; [|discriminate].
  destruct (find COMPILER_PIN t) as [i|] eqn:Hf; [|discriminate].
  destruct (pin_versions _ _ t); try discriminate.
  intros [= <-].
  apply version_at_sound in Hv as (ws & post & _ & _ & Hfree).
  exists cv, t, i. repeat split; try reflexivity; assumption.
Qed.

(** C7, as stated, fails: with a comment that mentions an earlier pin above
    the pins, [main] returns and the comparison link names what the comment
    holds; the version that was pinned, 3.1.0, is nowhere in the commit
    message. *)
Lemma commit_message_names_commented_version :
  option_map lines (requirements_iree_pinned pin_below_comment)
  = Some [str "# iree-base-compiler==0.0.1 (broken)";
          str "iree-base-compiler==3.1.0";
          str "iree-base-runtime==3.1.0"; []]
  /\ fst (main pip_release pin_below_comment) = Ok tt
  /\ update_iree_version_text (snd (main pip_release pin_below_comment))
     = Some (body_text (str "0.0.1 (broken)") (str "3.2.0rc20250109"))
  /\ contains (str "3.1.0")
       (body_text (str "0.0.1 (broken)") (str "3.2.0rc20250109")) = false.
Proof. vm_compute. repeat split. Qed.

(** C7, amended.  After [main] returned on a requirements file whose first
    line that holds [iree-base-compiler==] is the line
    [iree-base-compiler==X], the commit message file holds a summary line
    with the version the index gave for iree-base-compiler, and a comparison
    link that names the pinned version [X] and that new version. *)
Theorem commit_message_after_success (pip : text -> list text -> text)
    (fs fs' : files) (t X : text) (above below : list text) :
  main pip fs = (Ok tt, fs') ->
  requirements_iree_pinned fs = Some t ->
  lines t = above ++ (str "iree-base-compiler==" ++ X) :: below ->
  (forall l, In l above -> contains (str "iree-base-compiler==") l = false) ->
  exists new body,
    get_latest_package_version pip (str "iree-base-compiler")
      iree_nightly_pip_args = Ok new
    /\ update_iree_version_text fs' = Some body
    /\ first_line body = str "Automated update of IREE deps to " ++ new ++ str "."
    /\ exists pre post,
         body = pre ++ str "https://github.com/iree-org/iree/compare/iree-"
                ++ X ++ str "...iree-" ++ new ++ post.
Proof.
  intros Hmain Ht Hlines Habove.
  apply commit_message_names_first_pin in Hmain
    as (new & t0 & i & Hnew & Hfree & Ht0 & Hi & Hbody).
  rewrite Ht in Ht0. injection Ht0 as <-.
  change (str "iree-base-compiler==") with COMPILER_PIN in *.
  destruct (@first_pin_line COMPILER_PIN X below above t) as (j & Hj & HX);
    [discriminate | reflexivity | exact Hlines | exact Habove |].
  rewrite Hi in Hj. injection Hj as <-. rewrite HX in Hbody.
  exists new, (body_text X new). repeat split; try assumption.
  - unfold body_text. rewrite app_assoc, app_assoc. cbn [app].
    apply first_line_before_newline.
    now rewrite !newline_free_app, Hfree.
  - exists (str "Automated update of IREE deps to " ++ new ++ str "."
            ++ [LF; LF] ++ str "Diff: "), ([LF] ++ str "        ").
    unfold body_text.
    change (str "Diff: https://github.com/iree-org/iree/compare/iree-")
      with (str "Diff: "
            ++ str "https://github.com/iree-org/iree/compare/iree-").
    now rewrite <- !app_assoc.
Qed.

Lemma commit_message_after_success_witness :
  exists new body,
    get_latest_package_version pip_release (str "iree-base-compiler")
      iree_nightly_pip_args = Ok new
    /\ update_iree_version_text (snd (main pip_release pins_below_numpy))
       = Some body
    /\ first_line body = str "Automated update of IREE deps to " ++ new ++ str "."
    /\ exists pre post,
         body = pre ++ str "https://github.com/iree-org/iree/compare/iree-"
                ++ str "3.1.0" ++ str "...iree-" ++ new ++ post.
Proof.
  apply (@commit_message_after_success pip_release pins_below_numpy
           (snd (main pip_release pins_below_numpy))
           (str "numpy==1.26.4" ++ [LF]
            ++ str "iree-base-compiler==3.1.0" ++ [LF]
            ++ str "iree-base-runtime==3.1.0" ++ [LF])
           (str "3.1.0")
           [str "numpy==1.26.4"] [str "iree-base-runtime==3.1.0"; []]).
  - vm_compute. reflexivity.
  - reflexivity.
  - vm_compute. reflexivity.
  - intros l [<- | []]. vm_compute. reflexivity.
Defined.

(** ** The rewritten requirements file *)


(** C1, as stated, fails: the line of the runtime pin is another line of the
    file, and it changes. *)
Lemma runtime_pin_line_changes :
  nth_error (lines (str "iree-base-compiler==3.1.0" ++ [LF]
                    ++ str "iree-base-runtime==3.1.0" ++ [LF])) 1
  = Some (str "iree-base-runtime==3.1.0")
  /\ get_latest_package_version pip_release (str "iree-base-compiler")
      iree_nightly_pip_args
     = Ok (str "3.2.0rc20250109")
  /\ fst (main pip_release both_pins) = Ok tt
  /\ option_map (fun t' => nth_error (lines t') 1)
       (requirements_iree_pinned (snd (main pip_release both_pins)))
     = Some (Some (str "iree-base-runtime==3.2.0rc20250109")).
Proof. vm_compute. repeat split. Qed.

(** C1, amended.  With queried versions that hold no backslash, the new
    compiler version not holding [iree-base-runtime==], and a requirements
    file that has a line [iree-base-compiler==X]: [main] returns, the file
    keeps its number of lines, every line [iree-base-compiler==X'] has
    become [iree-base-compiler==Y], every line [iree-base-runtime==X'] has
    become [iree-base-runtime==Z], and every line that holds neither pin is
    as it was. *)
Theorem rewritten_requirements (pip : text -> list text -> text) (fs : files)
  (t Y Z X : text) :
  get_latest_package_version pip (str "iree-base-compiler")
      iree_nightly_pip_args = Ok Y ->
  get_latest_package_version pip (str "iree-base-runtime")
      iree_nightly_pip_args = Ok Z ->
  backslash_free Y = true -> backslash_free Z = true ->
  contains (str "iree-base-runtime==") Y = false ->
  requirements_iree_pinned fs = Some t ->
  In (str "iree-base-compiler==" ++ X) (lines t) ->
  exists t',
    fst (main pip fs) = Ok tt
    /\ requirements_iree_pinned (snd (main pip fs)) = Some t'
    /\ length (lines t') = length (lines t)
    /\ In (str "iree-base-compiler==" ++ Y) (lines t')
    /\ (forall n X',
           nth_error (lines t) n = Some (str "iree-base-compiler==" ++ X') ->
           nth_error (lines t') n = Some (str "iree-base-compiler==" ++ Y))
    /\ (forall n X',
           nth_error (lines t) n = Some (str "iree-base-runtime==" ++ X') ->
           nth_error (lines t') n = Some (str "iree-base-runtime==" ++ Z))
    /\ (forall n l,
           nth_error (lines t) n = Some l ->
           contains (str "iree-base-compiler==") l = false ->
           contains (str "iree-base-runtime==") l = false ->
           nth_error (lines t') n = Some l).
Proof.
  change (str "iree-base-compiler==") with COMPILER_PIN.
  change (str "iree-base-runtime==") with RUNTIME_PIN.
  intros EY EZ HY HZ HnoR Ht Hin.
  pose proof (@queried_version_newline_free pip (str "iree-base-compiler")
                iree_nightly_pip_args Y
                plain_iree_base_compiler EY) as HnY.
  pose proof (@queried_version_newline_free pip (str "iree-base-runtime")
                iree_nightly_pip_args Z
                plain_iree_base_runtime EZ) as HnZ.
  destruct pins_do_not_overlap as [no_AB no_BA].
  assert (Hfind : find COMPILER_PIN t <> None).
  { apply (@find_in_line COMPILER_PIN t (COMPILER_PIN ++ X) Hin).
    rewrite find_unfold. now rewrite prefixb_app. }
  destruct (find COMPILER_PIN t) as [i|] eqn:Hf; [clear Hfind | congruence].
  exists (join_lines (map (pin_line Y Z) (lines t))).
  rewrite main_unfold, EY, EZ, Ht, Hf, pin_versions_lines by assumption.
  cbn [fst snd requirements_iree_pinned].
  rewrite lines_pinned by assumption.
  assert (Hline : forall X', pin_line Y Z (COMPILER_PIN ++ X') = COMPILER_PIN ++ Y)
    by (intro X'; now apply sub_line_pinned).
  repeat split.
  - apply length_map.
  - rewrite <- (Hline X). now apply in_map.
  - intros n X' Hn. rewrite nth_error_map, Hn. cbn [option_map].
    now rewrite Hline.
  - intros n X' Hn. rewrite nth_error_map, Hn. cbn [option_map].
    apply f_equal. now apply sub_line_second_pinned.
  - intros n l Hn HA HB. rewrite nth_error_map, Hn. cbn [option_map].
    f_equal. now apply sub_line_unpinned.
Qed.

Lemma rewritten_requirements_witness :
  exists t',
    fst (main pip_release both_pins) = Ok tt
    /\ requirements_iree_pinned (snd (main pip_release both_pins)) = Some t'
    /\ length (lines t')
       = length (lines (str "iree-base-compiler==3.1.0" ++ [LF]
                        ++ str "iree-base-runtime==3.1.0" ++ [LF]))
    /\ In (str "iree-base-compiler==" ++ str "3.2.0rc20250109") (lines t')
    /\ (forall n X',
           nth_error (lines (str "iree-base-compiler==3.1.0" ++ [LF]
                             ++ str "iree-base-runtime==3.1.0" ++ [LF])) n
           = Some (str "iree-base-compiler==" ++ X') ->
           nth_error (lines t') n
           = Some (str "iree-base-compiler==" ++ str "3.2.0rc20250109"))
    /\ (forall n X',
           nth_error (lines (str "iree-base-compiler==3.1.0" ++ [LF]
                             ++ str "iree-base-runtime==3.1.0" ++ [LF])) n
           = Some (str "iree-base-runtime==" ++ X') ->
           nth_error (lines t') n
           = Some (str "iree-base-runtime==" ++ str "3.2.0rc20250109"))
    /\ (forall n l,
           nth_error (lines (str "iree-base-compiler==3.1.0" ++ [LF]
                             ++ str "iree-base-runtime==3.1.0" ++ [LF])) n
           = Some l ->
           contains (str "iree-base-compiler==") l = false ->
           contains (str "iree-base-runtime==") l = false ->
           nth_error (lines t') n = Some l).
Proof.
  apply (@rewritten_requirements pip_release both_pins
           (str "iree-base-compiler==3.1.0" ++ [LF]
            ++ str "iree-base-runtime==3.1.0" ++ [LF])
           (str "3.2.0rc20250109") (str "3.2.0rc20250109") (str "3.1.0"));
    try reflexivity.
  left. reflexivity.
Defined.

(** Why the new compiler version must not hold [iree-base-runtime==]: the
    second substitution then rewrites the line of the compiler pin. *)
Example compiler_version_holding_runtime_pin :
  pin_versions (str "1iree-base-runtime==2") (str "3")
    (str "iree-base-compiler==0")
  = Ok (str "iree-base-compiler==1iree-base-runtime==3").
Proof. vm_compute. reflexivity. Qed.

(** C10, as stated, fails: a queried version may hold a backslash, which
    the replacement template of [re.sub] turns into another character; here
    every application adds a newline. *)
Lemma escaped_version_not_idempotent :
  get_latest_package_version pip_escaped (str "iree-base-compiler")
      iree_nightly_pip_args
  = Ok (str "3.2.0\n")
  /\ get_latest_package_version pip_escaped (str "iree-base-runtime")
      iree_nightly_pip_args
     = Ok (str "3.2.0\n")
  /\ pin_versions (str "3.2.0\n") (str "3.2.0\n")
       (str "iree-base-compiler==3.1.0")
     = Ok (str "iree-base-compiler==3.2.0" ++ [LF])
  /\ pin_versions (str "3.2.0\n") (str "3.2.0\n")
       (str "iree-base-compiler==3.2.0" ++ [LF])
     = Ok (str "iree-base-compiler==3.2.0" ++ [LF; LF])
  /\ pin_versions (str "3.2.0\n") (str "3.2.0\n")
       (str "iree-base-compiler==3.2.0\n")
     = Ok (str "iree-base-compiler==3.2.0" ++ [LF]).
Proof. vm_compute. repeat split. Qed.

(** C10, amended.  For queried versions that hold no backslash, the two
    substitutions applied to their own result give that result again; and a
    text whose lines are [iree-base-compiler==Y], [iree-base-runtime==Z] or
    hold no pin is left as it is, provided [Y] does not hold
    [iree-base-runtime==]. *)
Theorem pin_versions_idempotent (pip : text -> list text -> text) (Y Z t : text) :
  get_latest_package_version pip (str "iree-base-compiler")
      iree_nightly_pip_args = Ok Y ->
  get_latest_package_version pip (str "iree-base-runtime")
      iree_nightly_pip_args = Ok Z ->
  backslash_free Y = true -> backslash_free Z = true ->
  (exists t1, pin_versions Y Z t = Ok t1 /\ pin_versions Y Z t1 = Ok t1)
  /\ (contains (str "iree-base-runtime==") Y = false ->
      (forall l, In l (lines t) ->
                 l = str "iree-base-compiler==" ++ Y
                 \/ l = str "iree-base-runtime==" ++ Z
                 \/ (contains (str "iree-base-compiler==") l = false
                     /\ contains (str "iree-base-runtime==") l = false)) ->
      pin_versions Y Z t = Ok t).
Proof.
  change (str "iree-base-compiler==") with COMPILER_PIN.
  change (str "iree-base-runtime==") with RUNTIME_PIN.
  intros EY EZ HY HZ.
  pose proof (@queried_version_newline_free pip (str "iree-base-compiler")
                iree_nightly_pip_args Y
                plain_iree_base_compiler EY) as HnY.
  pose proof (@queried_version_newline_free pip (str "iree-base-runtime")
                iree_nightly_pip_args Z
                plain_iree_base_runtime EZ) as HnZ.
  destruct pins_do_not_overlap as [no_AB no_BA].
  split.
  - exists (join_lines (map (pin_line Y Z) (lines t))).
    rewrite !pin_versions_lines by assumption. split; [reflexivity|].
    rewrite lines_pinned by assumption. rewrite map_map.
    do 2 f_equal. apply map_ext. intro l. now apply sub_line_twice.
  - intros HnoR Hlines. rewrite pin_versions_lines by assumption.
    f_equal. rewrite <- (join_lines_lines t) at 2. f_equal.
    rewrite <- (map_id (lines t)) at 2. apply map_ext_in.
    intros l Hl. destruct (Hlines l Hl) as [-> | [-> | [HA HB]]].
    + now apply sub_line_pinned.
    + now apply sub_line_second_pinned.
    + now apply sub_line_unpinned.
Qed.

Lemma pin_versions_idempotent_witness :
  (exists t1,
      pin_versions (str "3.2.0rc20250109") (str "3.2.0rc20250109") one_pin
      = Ok t1
      /\ pin_versions (str "3.2.0rc20250109") (str "3.2.0rc20250109") t1
         = Ok t1)
  /\ (contains (str "iree-base-runtime==") (str "3.2.0rc20250109") = false ->
      (forall l, In l (lines one_pin) ->
                 l = str "iree-base-compiler==" ++ str "3.2.0rc20250109"
                 \/ l = str "iree-base-runtime==" ++ str "3.2.0rc20250109"
                 \/ (contains (str "iree-base-compiler==") l = false
                     /\ contains (str "iree-base-runtime==") l = false)) ->
      pin_versions (str "3.2.0rc20250109") (str "3.2.0rc20250109") one_pin
      = Ok one_pin).
Proof.
  apply (@pin_versions_idempotent pip_release (str "3.2.0rc20250109")
           (str "3.2.0rc20250109") one_pin); reflexivity.
Defined.

(** ** More on the query of the package index *)

Lemma last_in_line_absent c s :
  char_in c (first_line s) = false -> last_in_line c s = None.
Proof.
  induction s as [|d s IH]; [reflexivity|].
  cbn [first_line last_in_line]. destruct (N.eqb d LF); [reflexivity|].
  unfold char_in in *. cbn [existsb]. intro H.
  apply orb_false_elim in H as [Hd H]. now rewrite IH, Hd.
Qed.

Lemma last_in_line_last c v post :
  newline_free v = true -> c <> LF ->
  char_in c (first_line post) = false ->
  last_in_line c (v ++ c :: post) = Some (length v).
Proof.
  intros Hv Hc Hpost. induction v as [|d v IH]; cbn [app last_in_line length].
  - apply N.eqb_neq in Hc. rewrite Hc, N.eqb_refl.
    now rewrite last_in_line_absent.
  - rewrite newline_free_cons in Hv. apply andb_prop in Hv as [Hd Hv].
    apply negb_true_iff in Hd. now rewrite Hd, IH.
Qed.

Lemma last_in_line_rest c s i :
  last_in_line c s = Some i ->
  char_in c (first_line (skipn (S i) s)) = false.
Proof.
  revert i; induction s as [|d s IH]; intro i; cbn [last_in_line];
    [discriminate|].
  destruct (N.eqb d LF) eqn:Ed; [discriminate|].
  destruct (last_in_line c s) as [j|] eqn:Hj.
  - intros [= <-]. cbn [skipn]. now apply IH.
  - destruct (N.eqb c d); [|discriminate]. intros [= <-]. cbn [skipn].
    clear IH. induction s as [|e s IHs]; [reflexivity|].
    cbn [last_in_line first_line] in *.
    destruct (N.eqb e LF); [reflexivity|].
    destruct (last_in_line c s); [discriminate|].
    destruct (N.eqb c e) eqn:Ee; [discriminate|].
    unfold char_in in *. cbn [existsb]. rewrite Ee. now apply IHs.
Qed.

Lemma version_at_last_paren name ws v post :
  is_space ws = true -> newline_free v = true ->
  char_in RPAREN (first_line post) = false ->
  version_at name (name ++ ws :: LPAREN :: v ++ RPAREN :: post) = Some v.
Proof.
  intros Hws Hv Hpost. unfold version_at.
  rewrite prefixb_app, skipn_app_length, Hws, N.eqb_refl. cbn [andb].
  rewrite last_in_line_last by (auto; discriminate).
  cbn [option_map]. now rewrite firstn_app, Nat.sub_diag, firstn_all, app_nil_r.
Qed.

Lemma version_at_form name s v :
  version_at name s = Some v ->
  exists ws post,
    s = name ++ ws :: LPAREN :: v ++ RPAREN :: post
    /\ is_space ws = true /\ newline_free v = true
    /\ char_in RPAREN (first_line post) = false.
Proof.
  unfold version_at. destruct (prefixb name s) eqn:Hp; [|discriminate].
  apply prefixb_split in Hp.
  destruct (skipn (length name) s) as [|ws [|p tail]]; try discriminate.
  destruct (is_space ws) eqn:Hws; [|discriminate].
  destruct (N.eqb_spec p LPAREN) as [->|]; [|discriminate]. cbn [andb].
  destruct (last_in_line RPAREN tail) as [i|] eqn:Hl; [|discriminate].
  intros [= <-]. pose proof (last_in_line_rest _ _ Hl) as Hrest.
  apply last_in_line_sound in Hl as [E F].
  exists ws, (skipn (S i) tail). now rewrite <- E.
Qed.

(** X1.  The separator after the package name may be any white space
    character, a tab or a newline as well as a space, and the version
    returned runs up to the last closing parenthesis of its line: text after
    that parenthesis, on the line or on later lines, is ignored. *)
Theorem query_returns_up_to_last_paren (pip : text -> list text -> text)
  (name v post : text) (ws : char) (extra : list text) :
  plain_name name = true ->
  is_space ws = true ->
  newline_free v = true ->
  char_in RPAREN (first_line post) = false ->
  pip name extra = name ++ ws :: LPAREN :: v ++ RPAREN :: post ->
  get_latest_package_version pip name extra = Ok v.
Proof.
  intros Hn Hws Hv Hpost E.
  rewrite get_latest_package_version_spec by exact Hn.
  rewrite E. now rewrite version_at_last_paren.
Qed.


Lemma query_returns_up_to_last_paren_witness :
  get_latest_package_version (fun _ _ => pip_answer_yanked)
    (str "iree-base-compiler") iree_nightly_pip_args
  = Ok (str "3.2.0) (yanked").
Proof.
  apply (@query_returns_up_to_last_paren (fun _ _ => pip_answer_yanked)
           (str "iree-base-compiler") (str "3.2.0) (yanked")
           (str ", see notes" ++ [LF] ++ str "Available versions: (none)")
           9%N iree_nightly_pip_args); reflexivity.
Defined.

(** X2.  A version that the query returns holds no newline, and the output
    of the index starts with the package name, one white space character,
    an opening parenthesis, that version and a closing parenthesis after
    which the line holds no other closing parenthesis. *)
Theorem query_result_form (pip : text -> list text -> text)
  (name v : text) (extra : list text) :
  plain_name name = true ->
  get_latest_package_version pip name extra = Ok v ->
  newline_free v = true
  /\ exists ws post,
       pip name extra = name ++ ws :: LPAREN :: v ++ RPAREN :: post
       /\ is_space ws = true
       /\ char_in RPAREN (first_line post) = false.
Proof.
  intros Hn H.
  destruct (@get_latest_package_version_cases pip name extra Hn)
    as [(u & Eu & Hu) | [E _]]; [|congruence].
  rewrite Eu in H. injection H as <-.
  apply version_at_form in Hu as (ws & post & E & Hws & Hfree & Hpost).
  split; [exact Hfree|]. now exists ws, post.
Qed.

Lemma query_result_form_witness :
  newline_free (str "3.2.0rc20250109") = true
  /\ exists ws post,
       pip_release (str "iree-base-runtime") iree_nightly_pip_args
       = str "iree-base-runtime" ++ ws :: LPAREN :: str "3.2.0rc20250109"
         ++ RPAREN :: post
       /\ is_space ws = true
       /\ char_in RPAREN (first_line post) = false.
Proof.
  apply (@query_result_form pip_release (str "iree-base-runtime")
           (str "3.2.0rc20250109") iree_nightly_pip_args); reflexivity.
Defined.

(** X3.  For a plain package name the query either returns a version or
    raises its RuntimeError: indexing the groups of the match never raises
    an IndexError, and the pattern always compiles. *)
Theorem query_raises_only_runtime_error (pip : text -> list text -> text)
  (name : text) (extra : list text) :
  plain_name name = true ->
  (exists v, get_latest_package_version pip name extra = Ok v)
  \/ get_latest_package_version pip name extra
     = Raised (RuntimeError (str "Failed to find a package version using regex")).
Proof.
  intro Hn.
  destruct (@get_latest_package_version_cases pip name extra Hn)
    as [(u & Eu & _) | [E _]]; eauto.
Qed.

Lemma query_raises_only_runtime_error_witness :
  (exists v, get_latest_package_version pip_release (str "iree-base-runtime")
               iree_nightly_pip_args = Ok v)
  \/ get_latest_package_version pip_release (str "iree-base-runtime")
       iree_nightly_pip_args
     = Raised (RuntimeError (str "Failed to find a package version using regex")).
Proof.
  apply (@query_raises_only_runtime_error pip_release
           (str "iree-base-runtime") iree_nightly_pip_args).
  reflexivity.
Defined.

(** ** More on [main] *)

(** A run that gets two versions without a backslash and finds a pin. *)
Lemma main_rewrites pip fs t Y Z i :
  get_latest_package_version pip (str "iree-base-compiler")
    iree_nightly_pip_args = Ok Y ->
  get_latest_package_version pip (str "iree-base-runtime")
    iree_nightly_pip_args = Ok Z ->
  backslash_free Y = true -> backslash_free Z = true ->
  requirements_iree_pinned fs = Some t ->
  find COMPILER_PIN t = Some i ->
  main pip fs
  = (Ok tt,
     {| requirements_iree_pinned :=
          Some (join_lines (map (pin_line Y Z) (lines t)));
        update_iree_version_text :=
          Some (body_text (first_line (skipn (i + length COMPILER_PIN) t)) Y) |})
  /\ lines (join_lines (map (pin_line Y Z) (lines t)))
     = map (pin_line Y Z) (lines t).
Proof.
  intros EY EZ HY HZ Ht Hf.
  pose proof (@queried_version_newline_free pip (str "iree-base-compiler")
                iree_nightly_pip_args Y plain_iree_base_compiler EY) as HnY.
  pose proof (@queried_version_newline_free pip (str "iree-base-runtime")
                iree_nightly_pip_args Z plain_iree_base_runtime EZ) as HnZ.
  rewrite main_unfold, EY, EZ, Ht, Hf, pin_versions_lines by assumption.
  split; [reflexivity | now apply lines_pinned].
Qed.

Lemma contains_find p s : contains p s = true -> exists i, find p s = Some i.
Proof. unfold contains. destruct (find p s); [eauto | discriminate]. Qed.

(** X4.  When [main] raises a RuntimeError (a query found no version), an
    IndexError (the requirements file holds no compiler pin) or a re.error
    (a version is not a valid replacement template), it does so before its
    first write: both files are as they were. *)
Theorem failed_run_writes_nothing (pip : text -> list text -> text)
  (fs fs' : files) (e : exception) :
  main pip fs = (Raised e, fs') ->
  (exists msg, e = RuntimeError msg) \/ e = IndexError \/ e = re_error ->
  fs' = fs.
Proof.
  intros H _. apply (@main_failure_writes_nothing pip fs (Raised e) fs' H).
  discriminate.
Qed.

Lemma failed_run_writes_nothing_witness :
  snd (main pip_release no_pins) = no_pins.
Proof.
  apply (@failed_run_writes_nothing pip_release no_pins
           (snd (main pip_release no_pins)) IndexError).
  - vm_compute. reflexivity.
  - right. left. reflexivity.
Defined.

(** X5.  When both queries return a version and the requirements file does
    not exist, [main] raises FileNotFoundError; in particular it does not
    create the commit message. *)
Theorem missing_requirements_file (pip : text -> list text -> text)
  (fs : files) (Y Z : text) :
  get_latest_package_version pip (str "iree-base-compiler")
    iree_nightly_pip_args = Ok Y ->
  get_latest_package_version pip (str "iree-base-runtime")
    iree_nightly_pip_args = Ok Z ->
  requirements_iree_pinned fs = None ->
  main pip fs = (Raised FileNotFoundError, fs).
Proof.
  intros EY EZ Hf. now rewrite main_unfold, EY, EZ, Hf.
Qed.


Lemma missing_requirements_file_witness :
  main pip_release no_files = (Raised FileNotFoundError, no_files).
Proof.
  apply (@missing_requirements_file pip_release no_files
           (str "3.2.0rc20250109") (str "3.2.0rc20250109")); reflexivity.
Defined.

(** X6.  [main] returns only when both queries gave a version and the
    requirements file exists and holds [iree-base-compiler==] somewhere;
    the requirements file then holds the result of the two substitutions,
    and the commit message file exists. *)
Theorem main_returns_only_with_pin (pip : text -> list text -> text)
  (fs fs' : files) :
  main pip fs = (Ok tt, fs') ->
  exists Y Z t t',
    get_latest_package_version pip (str "iree-base-compiler")
      iree_nightly_pip_args = Ok Y
    /\ get_latest_package_version pip (str "iree-base-runtime")
         iree_nightly_pip_args = Ok Z
    /\ requirements_iree_pinned fs = Some t
    /\ contains (str "iree-base-compiler==") t = true
    /\ pin_versions Y Z t = Ok t'
    /\ requirements_iree_pinned fs' = Some t'
    /\ update_iree_version_text fs' <> None.
Proof.
  change (str "iree-base-compiler==") with COMPILER_PIN.
  rewrite main_unfold.
  destruct (get_latest_package_version pip (str "iree-base-compiler") _)
    as [Y| |]; try discriminate.
  destruct (get_latest_package_version pip (str "iree-base-runtime") _)
    as [Z| |]; try discriminate.
  destruct (requirements_iree_pinned fs) as [t|]; [|discriminate].
  unfold contains.
  destruct (find COMPILER_PIN t) as [i|] eqn:Hf; [|discriminate].
  destruct (pin_versions Y Z t) as [t'| |] eqn:Hp; try discriminate.
  intros [= <-]. exists Y, Z, t, t'.
  cbn [requirements_iree_pinned update_iree_version_text].
  repeat split; try reflexivity;
    [now rewrite Hf | exact Hp | discriminate].
Qed.

Lemma main_returns_only_with_pin_witness :
  exists Y Z t t',
    get_latest_package_version pip_release (str "iree-base-compiler")
      iree_nightly_pip_args = Ok Y
    /\ get_latest_package_version pip_release (str "iree-base-runtime")
         iree_nightly_pip_args = Ok Z
    /\ requirements_iree_pinned commented_pin = Some t
    /\ contains (str "iree-base-compiler==") t = true
    /\ pin_versions Y Z t = Ok t'
    /\ requirements_iree_pinned (snd (main pip_release commented_pin)) = Some t'
    /\ update_iree_version_text (snd (main pip_release commented_pin)) <> None.
Proof.
  apply (@main_returns_only_with_pin pip_release commented_pin
           (snd (main pip_release commented_pin))).
  vm_compute. reflexivity.
Defined.

Section PinInsideLine.

Variables (A B Y Z : text).
Hypothesis no_AB : overlaps A B = false.
Hypothesis no_BA : overlaps B A = false.

(** A line whose first pin is not at its start. *)
Lemma sub_line_keeps_prefix l i :
  find A l = Some i ->
  contains B (firstn i l) = false -> contains B Y = false ->
  sub_line B (B ++ Z) (sub_line A (A ++ Y) l) = firstn i l ++ A ++ Y.
Proof.
  intros Hf Hu HY. apply find_decompose in Hf as (u & x & -> & <- & Hfu).
  assert (Ef : firstn (length u) (u ++ A ++ x) = u)
    by (rewrite firstn_app, Nat.sub_diag, firstn_all; apply app_nil_r).
  rewrite Ef in *. clear Ef.
  rewrite sub_line_found by exact Hfu.
  apply sub_line_none.
  destruct (find B (u ++ A ++ Y)) as [j|] eqn:HB; [exfalso | reflexivity].
  apply find_decompose in HB as (u2 & x2 & E & _ & _).
  unfold contains in Hu, HY.
  assert (in_u : forall a b, u = a ++ B ++ b -> False).
  { intros a b ->. pose proof (@find_occurs B a b) as H.
    destruct (find B (a ++ B ++ b)); [discriminate | congruence]. }
  assert (in_Y : forall a b, Y = a ++ B ++ b -> False).
  { intros a b ->. pose proof (@find_occurs B a b) as H.
    destruct (find B (a ++ B ++ b)); [discriminate | congruence]. }
  apply app_eq_app in E as [k [[Eu E] | [Eu2 E]]].
  - symmetry in E. apply app_eq_app in E as [k2 [[Ek E] | [EB E]]].
    + apply (in_u u2 k2). now rewrite Eu, Ek.
    + destruct k2 as [|c k2].
      * apply (in_u u2 []). rewrite Eu, EB. now rewrite !app_nil_r.
      * exact (@overlap_excluded B A k (c :: k2) x2 Y no_BA EB
                 ltac:(discriminate) (eq_sym E)).
  - apply app_eq_app in E as [k2 [[EA E] | [Ek E]]].
    + destruct k2 as [|c k2].
      * apply (in_Y [] x2). now rewrite E.
      * exact (@overlap_excluded A B k (c :: k2) Y x2 no_AB EA
                 ltac:(discriminate) (eq_sym E)).
    + apply (in_Y k2 x2). exact E.
Qed.

End PinInsideLine.

(** X7.  Every line [iree-base-runtime==X] of the requirements file becomes
    [iree-base-runtime==Z] for the queried runtime version [Z], whatever the
    two versions hold besides a backslash. *)
Theorem runtime_pin_rewritten (pip : text -> list text -> text) (fs : files)
  (t Y Z : text) :
  get_latest_package_version pip (str "iree-base-compiler")
    iree_nightly_pip_args = Ok Y ->
  get_latest_package_version pip (str "iree-base-runtime")
    iree_nightly_pip_args = Ok Z ->
  backslash_free Y = true -> backslash_free Z = true ->
  requirements_iree_pinned fs = Some t ->
  contains (str "iree-base-compiler==") t = true ->
  exists t',
    main pip fs
    = (Ok tt, {| requirements_iree_pinned := Some t';
                 update_iree_version_text :=
                   update_iree_version_text (snd (main pip fs)) |})
    /\ forall n X,
         nth_error (lines t) n = Some (str "iree-base-runtime==" ++ X) ->
         nth_error (lines t') n = Some (str "iree-base-runtime==" ++ Z).
Proof.
  change (str "iree-base-compiler==") with COMPILER_PIN.
  change (str "iree-base-runtime==") with RUNTIME_PIN.
  intros EY EZ HY HZ Ht Hc. apply contains_find in Hc as [i Hf].
  destruct (@main_rewrites pip fs t Y Z i EY EZ HY HZ Ht Hf) as [-> El].
  eexists. split; [reflexivity|].
  intros n X Hn. rewrite El, nth_error_map, Hn. cbn [option_map].
  apply f_equal. apply sub_line_second_pinned. apply pins_do_not_overlap.
Qed.

Lemma runtime_pin_rewritten_witness :
  exists t',
    main pip_release both_pins
    = (Ok tt, {| requirements_iree_pinned := Some t';
                 update_iree_version_text :=
                   update_iree_version_text (snd (main pip_release both_pins)) |})
    /\ forall n X,
         nth_error (lines (str "iree-base-compiler==3.1.0" ++ [LF]
                           ++ str "iree-base-runtime==3.1.0" ++ [LF])) n
         = Some (str "iree-base-runtime==" ++ X) ->
         nth_error (lines t') n
         = Some (str "iree-base-runtime==" ++ str "3.2.0rc20250109").
Proof.
  apply (@runtime_pin_rewritten pip_release both_pins
           (str "iree-base-compiler==3.1.0" ++ [LF]
            ++ str "iree-base-runtime==3.1.0" ++ [LF])
           (str "3.2.0rc20250109") (str "3.2.0rc20250109")); reflexivity.
Defined.

(** X8.  When the first [iree-base-compiler==] of a line is not at its
    start, what precedes it on the line is kept and all that follows it, a
    trailing comment for instance, is replaced by the new version: provided
    no [iree-base-runtime==] precedes it and the new version holds none. *)
Theorem pin_inside_line (pip : text -> list text -> text) (fs : files)
  (t Y Z l : text) (n i : nat) :
  get_latest_package_version pip (str "iree-base-compiler")
    iree_nightly_pip_args = Ok Y ->
  get_latest_package_version pip (str "iree-base-runtime")
    iree_nightly_pip_args = Ok Z ->
  backslash_free Y = true -> backslash_free Z = true ->
  contains (str "iree-base-runtime==") Y = false ->
  requirements_iree_pinned fs = Some t ->
  nth_error (lines t) n = Some l ->
  find (str "iree-base-compiler==") l = Some i ->
  contains (str "iree-base-runtime==") (firstn i l) = false ->
  fst (main pip fs) = Ok tt
  /\ exists t',
       requirements_iree_pinned (snd (main pip fs)) = Some t'
       /\ nth_error (lines t') n
          = Some (firstn i l ++ str "iree-base-compiler==" ++ Y).
Proof.
  change (str "iree-base-compiler==") with COMPILER_PIN.
  change (str "iree-base-runtime==") with RUNTIME_PIN.
  intros EY EZ HY HZ HnoR Ht Hn Hi Hbefore.
  assert (Hfind : find COMPILER_PIN t <> None).
  { apply (@find_in_line COMPILER_PIN t l); [|congruence].
    now apply nth_error_In in Hn. }
  destruct (find COMPILER_PIN t) as [j|] eqn:Hf; [clear Hfind | congruence].
  destruct (@main_rewrites pip fs t Y Z j EY EZ HY HZ Ht Hf) as [-> El].
  cbn [fst snd requirements_iree_pinned]. split; [reflexivity|].
  eexists. split; [reflexivity|].
  rewrite El, nth_error_map, Hn. cbn [option_map]. apply f_equal.
  destruct pins_do_not_overlap as [no_AB no_BA].
  now apply sub_line_keeps_prefix.
Qed.


Lemma pin_inside_line_witness :
  fst (main pip_release pin_with_comment) = Ok tt
  /\ exists t',
       requirements_iree_pinned (snd (main pip_release pin_with_comment))
       = Some t'
       /\ nth_error (lines t') 1
          = Some (firstn 2 (str "  iree-base-compiler==3.1.0  # nightly")
                  ++ str "iree-base-compiler==" ++ str "3.2.0rc20250109").
Proof.
  apply (@pin_inside_line pip_release pin_with_comment
           (str "numpy" ++ [LF]
            ++ str "  iree-base-compiler==3.1.0  # nightly" ++ [LF])
           (str "3.2.0rc20250109") (str "3.2.0rc20250109")
           (str "  iree-base-compiler==3.1.0  # nightly") 1 2); reflexivity.
Defined.

(** ** Versions that are not plain replacement text *)

Lemma expand_template_app a b :
  backslash_free a = true ->
  expand_template (a ++ b) = (r <- expand_template b ;; Ok (a ++ r)).
Proof.
  induction a as [|c a IH]; intro H.
  - cbn [app]. now destruct (expand_template b).
  - rewrite backslash_free_cons in H. apply andb_prop in H as [Hc H].
    apply negb_true_iff in Hc. cbn [app expand_template].
    rewrite Hc, IH by exact H. now destruct (expand_template b).
Qed.

Lemma expand_template_bad_escape y1 d y2 :
  backslash_free y1 = true ->
  is_ascii_letter d = true -> template_escape d = None -> d <> 103%N ->
  expand_template (y1 ++ BACKSLASH :: d :: y2) = Raised re_error.
Proof.
  intros H1 Hd He Hg. rewrite expand_template_app by exact H1.
  cbn [expand_template]. rewrite N.eqb_refl, He.
  apply N.eqb_neq in Hg. rewrite Hg.
  assert (Hdig : is_digit d = false).
  { unfold is_digit, is_ascii_letter in *.
    destruct (N.leb_spec 48 d), (N.leb_spec d 57); try reflexivity.
    destruct (N.leb_spec 65 d), (N.leb_spec d 90), (N.leb_spec 97 d),
      (N.leb_spec d 122); cbn in Hd; try discriminate; lia. }
  now rewrite Hdig, Hd.
Qed.

(** X9.  A queried compiler version in which a backslash is followed by an
    ASCII letter other than a, b, f, g, n, r, t, v is not a valid
    replacement template: [main] raises [re.error] at the first
    substitution and writes no file. *)
Theorem invalid_escape_in_version (pip : text -> list text -> text)
  (fs : files) (t y1 y2 Z : text) (d : char) :
  get_latest_package_version pip (str "iree-base-compiler")
    iree_nightly_pip_args = Ok (y1 ++ BACKSLASH :: d :: y2) ->
  get_latest_package_version pip (str "iree-base-runtime")
    iree_nightly_pip_args = Ok Z ->
  backslash_free y1 = true ->
  is_ascii_letter d = true -> template_escape d = None -> d <> 103%N ->
  requirements_iree_pinned fs = Some t ->
  contains (str "iree-base-compiler==") t = true ->
  main pip fs = (Raised re_error, fs).
Proof.
  change (str "iree-base-compiler==") with COMPILER_PIN.
  intros EY EZ H1 Hd He Hg Ht Hc. apply contains_find in Hc as [i Hf].
  rewrite main_unfold, EY, EZ, Ht, Hf.
  unfold pin_versions, re_sub.
  change (re_compile (str "iree-base-compiler==.*"))
    with (Some (lits COMPILER_PIN ++ [Star AnyChar])).
  cbv beta iota. change (str "iree-base-compiler==") with COMPILER_PIN.
  rewrite app_assoc.
  rewrite expand_template_bad_escape
    by (try assumption; now rewrite backslash_free_app, H1).
  reflexivity.
Qed.


Lemma invalid_escape_in_version_witness :
  main pip_bad_escape both_pins = (Raised re_error, both_pins).
Proof.
  apply (@invalid_escape_in_version pip_bad_escape both_pins
           (str "iree-base-compiler==3.1.0" ++ [LF]
            ++ str "iree-base-runtime==3.1.0" ++ [LF])
           (str "3.2.0") (str "1") (str "3.2.0\q1") 113%N);
    try reflexivity.
  discriminate.
Defined.

(** ** A package name that is not plain *)

Lemma build_atom_lits a name ts g :
  match ts with TStar :: _ => False | _ => True end ->
  build (TAtom a :: map (fun c => TAtom (Lit c)) name ++ ts) g
  = option_map (cons (One a))
      (build (map (fun c => TAtom (Lit c)) name ++ ts) g).
Proof.
  intro Hts. destruct name as [|c name]; [|reflexivity].
  destruct ts as [|[b| | |] ts]; try contradiction; reflexivity.
Qed.

Lemma compile_dotted_name n1 n2 :
  plain_name n1 = true -> plain_name n2 = true ->
  re_compile ((n1 ++ DOT :: n2) ++ str "\s\((.*)\)")
  = Some (lits n1 ++ One AnyChar :: lits n2 ++ version_tail).
Proof.
  intros H1 H2. unfold re_compile.
  rewrite <- app_assoc. cbn [app].
  rewrite tokenize_plain by exact H1.
  change (tokenize (DOT :: n2 ++ str "\s\((.*)\)"))
    with (option_map (cons (TAtom AnyChar))
            (tokenize (n2 ++ str "\s\((.*)\)"))).
  rewrite tokenize_plain by exact H2.
  change (tokenize (str "\s\((.*)\)"))
    with (Some [TAtom Space; TAtom (Lit LPAREN); TOpen; TAtom AnyChar; TStar;
                TClose; TAtom (Lit RPAREN)]).
  cbv beta iota delta [option_map].
  rewrite build_lits by exact I.
  rewrite build_atom_lits by exact I.
  rewrite build_lits by exact I. reflexivity.
Qed.

Lemma match_version_tail ws p tail pos :
  match_here version_tail (ws :: p :: tail) pos []
  = if is_space ws && N.eqb p LPAREN
    then option_map (fun i => (S (S (S pos) + i), [S (S pos); S (S pos) + i]))
           (last_in_line RPAREN tail)
    else None.
Proof.
  unfold version_tail. rewrite !match_here_one, match_here_open.
  cbn [atom_match]. destruct (is_space ws); [|reflexivity].
  rewrite (N.eqb_sym LPAREN p). destruct (N.eqb p LPAREN); [|reflexivity].
  cbn [andb app]. now rewrite match_here_dotstar_rparen.
Qed.

(** X10.  The package name goes into the pattern as it is: a dot in the
    name stands for any character but a newline, so that the version of a
    package whose name differs from the queried one at that place is
    returned. *)
Theorem dot_in_name_matches_any_character (pip : text -> list text -> text)
  (n1 n2 v post : text) (c ws : char) (extra : list text) :
  plain_name n1 = true -> plain_name n2 = true ->
  c <> LF -> is_space ws = true -> newline_free v = true ->
  char_in RPAREN (first_line post) = false ->
  pip (n1 ++ DOT :: n2) extra
  = n1 ++ c :: n2 ++ ws :: LPAREN :: v ++ RPAREN :: post ->
  get_latest_package_version pip (n1 ++ DOT :: n2) extra = Ok v.
Proof.
  intros H1 H2 Hc Hws Hv Hpost E. unfold get_latest_package_version.
  rewrite compile_dotted_name by assumption.
  unfold re_match. rewrite E, match_here_lits, prefixb_app, skipn_app_length.
  rewrite match_here_one. cbn [atom_match].
  apply N.eqb_neq in Hc. rewrite Hc. cbn [negb].
  rewrite match_here_lits, prefixb_app, skipn_app_length.
  rewrite match_version_tail, Hws, N.eqb_refl. cbn [andb].
  rewrite last_in_line_last by (auto; discriminate).
  cbn [option_map groups_of m_groups nth_error].
  replace (n1 ++ c :: n2 ++ ws :: LPAREN :: v ++ RPAREN :: post)
    with ((n1 ++ c :: n2 ++ [ws; LPAREN]) ++ v ++ RPAREN :: post)
    by (rewrite <- !app_assoc; cbn [app]; now rewrite <- !app_assoc).
  replace (S (S (S (0 + length n1) + length n2)))
    with (length (n1 ++ c :: n2 ++ [ws; LPAREN]))
    by (rewrite !length_app; cbn [length]; rewrite !length_app;
        cbn [length]; lia).
  rewrite slice_after.
  now rewrite firstn_app, Nat.sub_diag, firstn_all, app_nil_r.
Qed.

Lemma dot_in_name_matches_any_character_witness :
  get_latest_package_version
    (fun _ _ => str "iree-base (3.2.0)") (str "iree.base") []
  = Ok (str "3.2.0").
Proof.
  apply (@dot_in_name_matches_any_character
           (fun _ _ => str "iree-base (3.2.0)")
           (str "iree") (str "base") (str "3.2.0") [] 45%N SPACE []);
    try reflexivity.
  discriminate.
Defined.

(** ** Running [main] again *)

Lemma main_returns_inv pip fs fs' Y Z :
  get_latest_package_version pip (str "iree-base-compiler")
    iree_nightly_pip_args = Ok Y ->
  get_latest_package_version pip (str "iree-base-runtime")
    iree_nightly_pip_args = Ok Z ->
  backslash_free Y = true -> backslash_free Z = true ->
  main pip fs = (Ok tt, fs') ->
  exists t,
    requirements_iree_pinned fs = Some t
    /\ requirements_iree_pinned fs'
       = Some (join_lines (map (pin_line Y Z) (lines t))).
Proof.
  intros EY EZ HY HZ H.
  destruct (requirements_iree_pinned fs) as [t|] eqn:Ht.
  2:{ rewrite main_unfold, EY, EZ, Ht in H. discriminate H. }
  destruct (find COMPILER_PIN t) as [i|] eqn:Hf.
  2:{ rewrite main_unfold, EY, EZ, Ht, Hf in H. discriminate H. }
  destruct (@main_rewrites pip fs t Y Z i EY EZ HY HZ Ht Hf) as [E _].
  rewrite E in H. injection H as <-. now exists t.
Qed.

(** ** A second run

    Texts without a carriage return are read as they were written. *)
Lemma cr_free_cons c s : cr_free (c :: s) = negb (N.eqb c CR) && cr_free s.
Proof.
  unfold cr_free, char_in. cbn [existsb].
  now rewrite negb_orb, (N.eqb_sym CR c).
Qed.

Lemma cr_free_app a b : cr_free (a ++ b) = cr_free a && cr_free b.
Proof.
  induction a as [|x a IH]; [reflexivity|].
  cbn [app]. rewrite !cr_free_cons, IH. now rewrite andb_assoc.
Qed.

Lemma universal_newlines_unfold c s :
  universal_newlines (c :: s)
  = if N.eqb c CR
    then LF :: match s with
               | d :: s' =>
                   if N.eqb d LF then universal_newlines s'
                   else universal_newlines s
               | [] => []
               end
    else c :: universal_newlines s.
Proof. reflexivity. Qed.

Lemma universal_newlines_cr_free_text s :
  cr_free s = true -> universal_newlines s = s.
Proof.
  induction s as [|c s IH]; [reflexivity|].
  rewrite cr_free_cons. intro H. apply andb_prop in H as [Hc H].
  apply negb_true_iff in Hc. rewrite universal_newlines_unfold, Hc.
  f_equal. exact (IH H).
Qed.

Lemma universal_newlines_cr_free s : cr_free (universal_newlines s) = true.
Proof.
  assert (H : forall n s, length s <= n -> cr_free (universal_newlines s) = true).
  { clear s. induction n as [|n IH]; intros [|c s] Hlen; try reflexivity;
      cbn [length] in Hlen; [lia|].
    rewrite universal_newlines_unfold.
    destruct (N.eqb c CR) eqn:Hc.
    - rewrite cr_free_cons. change (negb (N.eqb LF CR)) with true. cbn [andb].
      destruct s as [|d s]; [reflexivity|].
      cbn [length] in Hlen.
      destruct (N.eqb d LF); apply IH; cbn [length]; lia.
    - rewrite cr_free_cons, Hc. cbn [negb andb]. apply IH. lia. }
  now apply (H (length s)).
Qed.

Lemma cr_free_lines s :
  cr_free s = true -> Forall (fun l => cr_free l = true) (lines s).
Proof.
  induction s as [|c s IH]; [now repeat constructor|].
  rewrite cr_free_cons. intro H. apply andb_prop in H as [Hc H].
  specialize (IH H). cbn [lines]. destruct (N.eqb c LF); [now constructor|].
  destruct (lines s) as [|l ls].
  - constructor; [|constructor]. now rewrite cr_free_cons, Hc.
  - inversion IH as [|? ? Hl Hls]; subst. constructor; [|exact Hls].
    now rewrite cr_free_cons, Hc, Hl.
Qed.

Lemma cr_free_join_lines ls :
  Forall (fun l => cr_free l = true) ls -> cr_free (join_lines ls) = true.
Proof.
  induction 1 as [|l ls Hl Hls IH]; [reflexivity|].
  destruct ls as [|l2 ls]; [exact Hl|].
  rewrite join_lines_cons by discriminate.
  now rewrite cr_free_app, Hl, cr_free_cons, IH.
Qed.

Lemma cr_free_sub_line p w l :
  cr_free w = true -> cr_free l = true -> cr_free (sub_line p w l) = true.
Proof.
  intros Hw. induction l as [|c l IH]; intro Hl; rewrite sub_line_unfold;
    destruct (prefixb p _); auto.
  rewrite cr_free_cons in *. apply andb_prop in Hl as [Hc Hl].
  now rewrite Hc, IH.
Qed.

Lemma cr_free_pinned Y Z t :
  cr_free Y = true -> cr_free Z = true -> cr_free t = true ->
  cr_free (join_lines (map (pin_line Y Z) (lines t))) = true.
Proof.
  intros HY HZ Ht. apply cr_free_join_lines.
  apply cr_free_lines in Ht. induction Ht; cbn [map]; constructor; auto.
  unfold pin_line.
  apply cr_free_sub_line; [now rewrite cr_free_app, HZ|].
  apply cr_free_sub_line; [now rewrite cr_free_app, HY | assumption].
Qed.

(** With a version that ends in a carriage return and a pin at the end of a
    file without a final newline, the second run changes the file again:
    the carriage return is read back as a newline, and the substitution
    adds another one in front of it. *)
Example carriage_return_in_version :
  let fs := {| requirements_iree_pinned := Some one_pin;
               update_iree_version_text := None |} in
  let fs1 := snd (main pip_cr (reopened fs)) in
  let fs2 := snd (main pip_cr (reopened fs1)) in
  fst (main pip_cr (reopened fs)) = Ok tt
  /\ fst (main pip_cr (reopened fs1)) = Ok tt
  /\ requirements_iree_pinned fs1
     = Some (str "iree-base-compiler==3.2.0" ++ [CR])
  /\ requirements_iree_pinned (reopened fs1)
     = Some (str "iree-base-compiler==3.2.0" ++ [LF])
  /\ requirements_iree_pinned fs2
     = Some (str "iree-base-compiler==3.2.0" ++ [CR; LF]).
Proof. vm_compute. repeat split. Qed.

(** X16.  Running the script again on the files it wrote, with the index
    giving the same versions, free of backslashes and of carriage returns,
    both runs reading their files in text mode, does not change the
    requirements file a second time. *)
Theorem second_run_keeps_requirements (pip : text -> list text -> text)
  (fs fs1 fs2 : files) (Y Z : text) :
  get_latest_package_version pip (str "iree-base-compiler")
    iree_nightly_pip_args = Ok Y ->
  get_latest_package_version pip (str "iree-base-runtime")
    iree_nightly_pip_args = Ok Z ->
  backslash_free Y = true -> backslash_free Z = true ->
  cr_free Y = true -> cr_free Z = true ->
  main pip (reopened fs) = (Ok tt, fs1) ->
  main pip (reopened fs1) = (Ok tt, fs2) ->
  requirements_iree_pinned fs2 = requirements_iree_pinned fs1.
Proof.
  intros EY EZ HY HZ HcY HcZ H1 H2.
  pose proof (@queried_version_newline_free pip (str "iree-base-compiler")
                iree_nightly_pip_args Y plain_iree_base_compiler EY) as HnY.
  pose proof (@queried_version_newline_free pip (str "iree-base-runtime")
                iree_nightly_pip_args Z plain_iree_base_runtime EZ) as HnZ.
  destruct (@main_returns_inv pip _ fs1 Y Z EY EZ HY HZ H1) as (t & Et & E1).
  destruct (@main_returns_inv pip _ fs2 Y Z EY EZ HY HZ H2)
    as (t1 & Et1 & E2).
  assert (Ht : cr_free t = true).
  { cbn [reopened requirements_iree_pinned] in Et.
    destruct (requirements_iree_pinned fs) as [t0|]; [|discriminate].
    injection Et as <-. apply universal_newlines_cr_free. }
  cbn [reopened requirements_iree_pinned] in Et1.
  rewrite E1 in Et1. cbn [option_map] in Et1. injection Et1 as <-.
  rewrite universal_newlines_cr_free_text in E2
    by now apply cr_free_pinned.
  rewrite E2, E1. f_equal.
  rewrite lines_pinned by assumption. rewrite map_map.
  f_equal. apply map_ext. intro l.
  destruct pins_do_not_overlap as [no_AB no_BA].
  now apply sub_line_twice.
Qed.

Lemma second_run_keeps_requirements_witness :
  requirements_iree_pinned
    (snd (main pip_release
            (reopened (snd (main pip_release (reopened both_pins))))))
  = requirements_iree_pinned (snd (main pip_release (reopened both_pins))).
Proof.
  apply (@second_run_keeps_requirements pip_release both_pins
           (snd (main pip_release (reopened both_pins)))
           (snd (main pip_release
                   (reopened (snd (main pip_release (reopened both_pins))))))
           (str "3.2.0rc20250109") (str "3.2.0rc20250109"));
    vm_compute; reflexivity.
Defined.

(** ** The closeness assertion of the Evoformer test *)

Module EvoformerFacts.
Import Evoformer.

Lemma eps_values_differ : 1e-2%float <> 5e-2%float.
Proof.
  intro H.
  assert (E : PrimFloat.ltb 1e-2 1e-2 = PrimFloat.ltb 1e-2 5e-2)
    by (rewrite H at 2; reflexivity).
  vm_compute in E. discriminate E.
Qed.

Lemma output_dtype_of_params dtype :
  In dtype dtype_params ->
  (dtype = f16 /\ torch_dtype_of dtype = float16)
  \/ (dtype = bf16 /\ torch_dtype_of dtype = bfloat16).
Proof.
  unfold dtype_params; simpl.
  intros [<- | [<- | []]]; [left | right]; split; reflexivity.
Qed.

(** C5.  For every parametrized shape and element type, the assertion of
    the test (when the test is not skipped) compares the maximum absolute
    difference between the kernel output and the reference with a tolerance
    that is 1e-2 exactly when the output element type is float16 and 5e-2
    exactly when it is bfloat16. *)
Theorem tolerance_by_precision (run_e2e : Z)
  (max_abs_diff : shape -> DataType -> float) sh perf_only dtype :
  In (sh, perf_only) default_test_shapes ->
  In dtype dtype_params ->
  run_e2e <> 0%Z ->
  let output_dtype := torch_dtype_of dtype in
  let result := testEvoformerAttentionForward run_e2e max_abs_diff sh dtype in
  (result = Passed
   <-> PrimFloat.ltb (max_abs_diff sh dtype) (eps output_dtype) = true)
  /\ (result = Failed
      <-> PrimFloat.ltb (max_abs_diff sh dtype) (eps output_dtype) = false)
  /\ (eps output_dtype = 1e-2%float <-> output_dtype = float16)
  /\ (eps output_dtype = 5e-2%float <-> output_dtype = bfloat16)
  /\ (dtype = f16 -> output_dtype = float16)
  /\ (dtype = bf16 -> output_dtype = bfloat16).
Proof.
  intros _ Hd Hrun output_dtype result. subst output_dtype result.
  unfold testEvoformerAttentionForward.
  apply Z.eqb_neq in Hrun. rewrite Hrun.
  split; [|split].
  - destruct (PrimFloat.ltb _ _); split; congruence.
  - destruct (PrimFloat.ltb _ _); split; congruence.
  - destruct (output_dtype_of_params Hd) as [[-> E] | [-> E]]; rewrite E;
      unfold eps; simpl.
    + repeat split; auto; try discriminate;
        intro H; exfalso; exact (eps_values_differ H).
    + repeat split; auto; try discriminate;
        intro H; exfalso; exact (eps_values_differ (eq_sym H)).
Qed.

Lemma tolerance_by_precision_witness :
  testEvoformerAttentionForward 1 (fun _ _ => 0.004%float)
    (1, 256, 256, 4, 32, 256, 32)%N f16 = Passed
  /\ eps (torch_dtype_of f16) = 1e-2%float.
Proof.
  pose proof (@tolerance_by_precision 1 (fun _ _ => 0.004%float)
                (1, 256, 256, 4, 32, 256, 32)%N false f16) as H.
  cbv zeta in H.
  destruct (H (or_introl eq_refl) (or_introl eq_refl) ltac:(discriminate))
    as (Ht & _ & _ & _ & _ & _).
  split; [apply Ht; vm_compute; reflexivity | reflexivity].
Defined.

End EvoformerFacts.

(** ** Shapes and element types in the Evoformer test *)
Module EvoformerTensorFacts.
Import Evoformer EvoformerTensors.

Lemma torch_dtype_eqb_refl d : torch_dtype_eqb d d = true.
Proof. now destruct d. Qed.

Lemma broadcast_dim_same a : broadcast_dim a a = Some a.
Proof. unfold broadcast_dim. now rewrite N.eqb_refl. Qed.

Lemma broadcast_dim_one a : broadcast_dim a 1 = Some a.
Proof.
  unfold broadcast_dim. destruct (N.eqb_spec a 1) as [->|]; [reflexivity|].
  reflexivity.
Qed.

Lemma transpose_middle a b c d e t :
  transpose {| size := [a; b; c; d; e]; dtype := t |} (-2) (-3)
  = Returns {| size := [a; b; d; c; e]; dtype := t |}.
Proof. reflexivity. Qed.

Lemma transpose_last a b c d e t :
  transpose {| size := [a; b; c; d; e]; dtype := t |} (-1) (-2)
  = Returns {| size := [a; b; c; e; d]; dtype := t |}.
Proof. reflexivity. Qed.

Lemma softmax_last a b c d e t :
  softmax {| size := [a; b; c; d; e]; dtype := t |} (-1)
  = Returns {| size := [a; b; c; d; e]; dtype := t |}.
Proof. reflexivity. Qed.

Lemma matmul_batched a b c m k n d :
  matmul {| size := [a; b; c; m; k]; dtype := d |}
         {| size := [a; b; c; k; n]; dtype := d |}
  = Returns {| size := [a; b; c; m; n]; dtype := d |}.
Proof.
  unfold matmul. cbn [size dtype rev app].
  rewrite torch_dtype_eqb_refl, N.eqb_refl. cbn [negb broadcast_rev].
  now rewrite !broadcast_dim_same.
Qed.

Lemma iadd_fits a s :
  broadcast (size a) s = Some (size a) -> iadd a {| size := s; dtype := dtype a |} = Returns a.
Proof.
  intro H. unfold iadd. cbn [size]. rewrite H.
  now destruct (list_eq_dec N.eq_dec (size a) (size a)).
Qed.

Lemma view_same_numel t s :
  numel s = numel (size t) ->
  view t s = Returns {| size := s; dtype := dtype t |}.
Proof. intro H. unfold view. now rewrite H, N.eqb_refl. Qed.

Lemma permute_last_three a b c d e t :
  permute {| size := [a; b; c; d; e]; dtype := t |} [0; 1; 4; 3; 2]%Z
  = Returns {| size := [a; b; e; d; c]; dtype := t |}.
Proof. reflexivity. Qed.

(** The reference on the tensors of the test. *)
Lemma reference_of_test a b kv h hd q vd t sm_scale :
  attention_reference
    {| size := [a; b; q; h; hd]; dtype := t |}
    {| size := [a; b; kv; h; hd]; dtype := t |}
    {| size := [a; b; kv; h; vd]; dtype := t |}
    [{| size := [a; b; 1; 1; kv]%N; dtype := t |};
     {| size := [a; 1; h; q; kv]%N; dtype := t |}] sm_scale
  = Returns {| size := [a; b; q; h; vd]; dtype := t |}.
Proof.
  unfold attention_reference, with_scalar.
  rewrite !transpose_middle. cbn [then_].
  rewrite transpose_last. cbn [then_].
  rewrite matmul_batched. cbn [then_ add_biases].
  rewrite iadd_fits.
  2:{ unfold broadcast. cbn [size rev app broadcast_rev].
      now rewrite !broadcast_dim_same, !broadcast_dim_one. }
  cbn [then_].
  rewrite iadd_fits.
  2:{ unfold broadcast. cbn [size rev app broadcast_rev].
      now rewrite !broadcast_dim_same, !broadcast_dim_one. }
  cbn [then_]. rewrite softmax_last. cbn [then_].
  rewrite matmul_batched. cbn [then_].
  now rewrite transpose_middle.
Qed.

(** X11.  With a head dimension of 0 the test raises a ZeroDivisionError
    when it computes the scale, before the kernel is called.  With another
    head dimension, and a kernel call that returns, every torch call of the
    test and of [attention_reference] gets sizes that fit, and the reference
    has the size and the element type of the buffer that the kernel fills:
    their difference is taken element by element, nothing is broadcast. *)
Theorem reference_has_the_size_of_output (compiled_module : Type)
  (evoformer_fwd : tensor -> tensor -> tensor -> tensor -> tensor -> tensor
                   -> option compiled_module)
  (batch n kv_seq_len heads head_dim q_seq_len v_dim : N) (dt : DataType) :
  let t := torch_dtype_of dt in
  let output := {| size := [batch; n; q_seq_len; heads; v_dim]; dtype := t |} in
  (head_dim = 0%N ->
   test_tensors evoformer_fwd
     (batch, n, kv_seq_len, heads, head_dim, q_seq_len, v_dim) dt
   = Fails ZeroDivisionError)
  /\ (head_dim <> 0%N -> (head_dim < 2 ^ 63)%N ->
      evoformer_fwd
        {| size := [batch; n; q_seq_len; heads; head_dim]; dtype := t |}
        {| size := [batch; n; kv_seq_len; heads; head_dim]; dtype := t |}
        {| size := [batch; n; v_dim; heads; kv_seq_len]; dtype := t |}
        {| size := [batch; n; kv_seq_len]; dtype := t |}
        {| size := [batch; heads; q_seq_len; kv_seq_len]; dtype := t |}
        output <> None ->
      test_tensors evoformer_fwd
        (batch, n, kv_seq_len, heads, head_dim, q_seq_len, v_dim) dt
      = Completes (output, output)
      /\ sub output output = Returns output).
Proof.
  intros t output. subst t output. split.
  - intros ->. reflexivity.
  - intros Hnz Hlt Hk. split.
    + unfold test_tensors, sqrt_of_inverse, float_of_N, with_scalar,
        device_tensor.
      apply N.ltb_lt in Hlt. rewrite Hlt.
      apply N.eqb_neq in Hnz. rewrite Hnz. cbn [and_then].
      rewrite permute_last_three. cbn [torch and_then].
      destruct (evoformer_fwd _ _ _ _ _ _) as [mb|]; [|congruence].
      cbn [launch and_then].
      rewrite view_same_numel by (cbn [numel fold_right size]; lia).
      cbn [torch and_then dtype].
      rewrite view_same_numel by (cbn [numel fold_right size]; lia).
      cbn [torch and_then dtype].
      now rewrite reference_of_test.
    + unfold sub. cbn [size dtype]. rewrite torch_dtype_eqb_refl. cbn [negb].
      unfold broadcast. cbn [rev app broadcast_rev].
      now rewrite !broadcast_dim_same.
Qed.

Lemma reference_has_the_size_of_output_witness :
  let output := {| size := [1; 256; 256; 4; 32]%N; dtype := float16 |} in
  test_tensors (fun _ _ _ _ _ _ => Some tt)
    (1, 256, 256, 4, 32, 256, 32)%N f16
  = Completes (output, output)
  /\ sub output output = Returns output.
Proof.
  destruct (@reference_has_the_size_of_output unit
              (fun _ _ _ _ _ _ => Some tt) 1 256 256 4 32 256 32 f16)
    as [_ H].
  apply H; [discriminate | reflexivity | discriminate].
Defined.

(** X12.  [attention_reference] needs tensors of three dimensions or more:
    with a query of fewer dimensions its first [transpose] raises an
    IndexError. *)
Theorem reference_needs_three_dimensions (q k v : tensor)
  (biases : list tensor) (sm_scale : float) :
  length (size q) < 3 ->
  attention_reference q k v biases sm_scale = Raises TorchIndexError.
Proof.
  intro H. unfold attention_reference, transpose.
  destruct (size q) as [|a [|b [|c s]]]; [reflexivity ..|].
  cbn [length] in H. lia.
Qed.

Lemma reference_needs_three_dimensions_witness :
  attention_reference (device_tensor [256; 32]%N float16)
    (device_tensor [1; 256; 256; 4; 32]%N float16)
    (device_tensor [1; 256; 256; 4; 32]%N float16) [] 0.125
  = Raises TorchIndexError.
Proof.
  apply (@reference_needs_three_dimensions
           (device_tensor [256; 32]%N float16)
           (device_tensor [1; 256; 256; 4; 32]%N float16)
           (device_tensor [1; 256; 256; 4; 32]%N float16) [] 0.125%float).
  cbn. lia.
Defined.

(** X14.  When the query and the key differ in their last dimension, the
    product of the query with the transposed key raises a RuntimeError,
    before any bias is added. *)
Theorem reference_needs_equal_head_dims
  (a b q_len kv_len h hd hd' v_dim : N) (d : torch_dtype)
  (biases : list tensor) (sm_scale : float) :
  hd <> hd' ->
  attention_reference
    {| size := [a; b; q_len; h; hd]; dtype := d |}
    {| size := [a; b; kv_len; h; hd']; dtype := d |}
    {| size := [a; b; kv_len; h; v_dim]; dtype := d |} biases sm_scale
  = Raises TorchRuntimeError.
Proof.
  intro H. unfold attention_reference.
  rewrite !transpose_middle. cbn [then_].
  rewrite transpose_last. cbn [then_].
  unfold matmul. cbn [size dtype rev app].
  rewrite torch_dtype_eqb_refl. apply N.eqb_neq in H. now rewrite H.
Qed.

Lemma reference_needs_equal_head_dims_witness :
  attention_reference
    {| size := [1; 256; 256; 4; 32]%N; dtype := float16 |}
    {| size := [1; 256; 256; 4; 8]%N; dtype := float16 |}
    {| size := [1; 256; 256; 4; 32]%N; dtype := float16 |} [] 0.125
  = Raises TorchRuntimeError.
Proof.
  apply (@reference_needs_equal_head_dims 1 256 256 256 4 32 8 32 float16 []
           0.125%float).
  discriminate.
Defined.

End EvoformerTensorFacts.

Module EvoformerEdgeFacts.
Import Evoformer.

(** X15.  The comparison with the tolerance is strict and a difference that
    is not a number is not below it: when the test is not skipped, a
    maximum difference that is NaN, infinite or equal to the tolerance makes
    the test fail, for both element types. *)
Theorem not_below_tolerance_fails (run_e2e : Z)
  (max_abs_diff : shape -> DataType -> float) (sh : shape) (dt : DataType) :
  run_e2e <> 0%Z ->
  In dt dtype_params ->
  max_abs_diff sh dt = nan
  \/ max_abs_diff sh dt = infinity
  \/ max_abs_diff sh dt = eps (torch_dtype_of dt) ->
  testEvoformerAttentionForward run_e2e max_abs_diff sh dt = Failed.
Proof.
  intros Hrun Hd H. unfold testEvoformerAttentionForward.
  apply Z.eqb_neq in Hrun. rewrite Hrun.
  destruct Hd as [<- | [<- | []]]; destruct H as [-> | [-> | ->]];
    vm_compute; reflexivity.
Qed.

Lemma not_below_tolerance_fails_witness :
  testEvoformerAttentionForward 1 (fun _ _ => nan)
    (1, 512, 256, 8, 8, 256, 8)%N bf16 = Failed.
Proof.
  apply (@not_below_tolerance_fails 1 (fun _ _ => nan)
           (1, 512, 256, 8, 8, 256, 8)%N bf16).
  - discriminate.
  - right. left. reflexivity.
  - left. reflexivity.
Defined.

End EvoformerEdgeFacts.

(** ** The file of the generated MLIR *)

Module EvoformerDumpFacts.
Import Evoformer EvoformerDump.

Lemma str_injective s1 s2 : str s1 = str s2 -> s1 = s2.
Proof.
  unfold str. intro H.
  rewrite <- (string_of_list_ascii_of_string s1),
          <- (string_of_list_ascii_of_string s2).
  f_equal. revert H.
  generalize (list_ascii_of_string s1) (list_ascii_of_string s2).
  induction l as [|a l IH]; intros [|b l']; cbn [map]; try discriminate;
    [reflexivity|].
  intros [= Hab H]. f_equal; [|now apply IH].
  now rewrite <- (ascii_N_embedding a), <- (ascii_N_embedding b), Hab.
Qed.

Lemma str_of_N_injective n m : str_of_N n = str_of_N m -> n = m.
Proof.
  unfold str_of_N. intro H. apply str_injective in H.
  assert (E : Some (N.to_uint n) = Some (N.to_uint m))
    by now rewrite <- !NilEmpty.usu, H.
  injection E as E.
  now rewrite <- (DecimalN.Unsigned.of_to n), <- (DecimalN.Unsigned.of_to m), E.
Qed.

Lemma digits_without_x d :
  char_in LETTER_X (str (NilEmpty.string_of_uint d)) = false.
Proof. induction d; cbn; auto. Qed.

Lemma str_of_N_without_x n : char_in LETTER_X (str_of_N n) = false.
Proof. apply digits_without_x. Qed.

Lemma split_at_x a b r r' :
  char_in LETTER_X a = false -> char_in LETTER_X b = false ->
  a ++ LETTER_X :: r = b ++ LETTER_X :: r' -> a = b /\ r = r'.
Proof.
  revert b; induction a as [|c a IH]; intros [|d b] Ha Hb; cbn [app].
  - now intros [= ->].
  - intros [= <- _]. unfold char_in in Hb. cbn in Hb. discriminate.
  - intros [= -> _]. unfold char_in in Ha. cbn in Ha. discriminate.
  - intros [= <- H]. unfold char_in in *. cbn [existsb] in *.
    apply orb_false_elim in Ha as [_ Ha]. apply orb_false_elim in Hb as [_ Hb].
    destruct (IH b Ha Hb H) as [-> ->]. now split.
Qed.

Lemma join_injective l1 l2 :
  Forall (fun a => char_in LETTER_X a = false) l1 ->
  Forall (fun a => char_in LETTER_X a = false) l2 ->
  length l1 = length l2 ->
  join (str "x") l1 = join (str "x") l2 -> l1 = l2.
Proof.
  intros H1. revert l2. induction H1 as [|a l1 Ha _ IH];
    intros l2 H2 Hlen; destruct H2 as [|b l2 Hb H2]; try discriminate;
    [reflexivity|].
  destruct l1 as [|a' l1], l2 as [|b' l2]; try discriminate.
  - cbn [join]. now intros ->.
  - change (join (str "x") (a :: a' :: l1)) with (a ++ LETTER_X :: join (str "x") (a' :: l1)).
    change (join (str "x") (b :: b' :: l2)) with (b ++ LETTER_X :: join (str "x") (b' :: l2)).
    intro H. apply split_at_x in H as [-> H]; [|assumption ..].
    f_equal. apply IH; [assumption | simpl in *; lia | exact H].
Qed.

(** X13.  Two shapes are written to the same file only when they are the
    same shape: the decimal numbers joined by [x] give the seven dimensions
    back. *)
Theorem filename_injective (sh1 sh2 : shape) :
  filename sh1 = filename sh2 -> sh1 = sh2.
Proof.
  unfold filename. intro H.
  apply app_inv_head in H. apply app_inv_tail in H.
  apply join_injective in H.
  - destruct sh1 as [[[[[[a1 b1] c1] d1] e1] f1] g1],
             sh2 as [[[[[[a2 b2] c2] d2] e2] f2] g2].
    cbn [dims map] in H.
    injection H as Ha Hb Hc Hd He Hf Hg.
    apply str_of_N_injective in Ha, Hb, Hc, Hd, He, Hf, Hg. now subst.
  - apply Forall_forall. intros a Ha. apply in_map_iff in Ha as (n & <- & _).
    apply str_of_N_without_x.
  - apply Forall_forall. intros a Ha. apply in_map_iff in Ha as (n & <- & _).
    apply str_of_N_without_x.
  - rewrite !length_map.
    now destruct sh1 as [[[[[[a1 b1] c1] d1] e1] f1] g1],
                 sh2 as [[[[[[a2 b2] c2] d2] e2] f2] g2].
Qed.

Lemma filename_injective_witness :
  filename (1, 256, 256, 4, 32, 256, 32)%N
  = str "wave_evoformer_1x256x256x4x32x256x32.mlir"
  /\ ((1, 256, 256, 4, 32, 256, 32) = (1, 256, 256, 4, 32, 256, 32))%N.
Proof.
  split; [vm_compute; reflexivity|].
  apply (@filename_injective (1, 256, 256, 4, 32, 256, 32)%N
           (1, 256, 256, 4, 32, 256, 32)%N).
  reflexivity.
Defined.

End EvoformerDumpFacts.
